(** * QPORT incident pipeline: a shallow embedding

    The embedded code is
      - [services/analyticsService.ts] (the Gemini service the hook
        imports): [processIncidentWithAI], the classification client with
        its retry loop and fallback incident;
      - [hooks/useQPort.ts]: [stats], [health], [addIncident],
        [updateStatus], [runDiagnostics];
      - the test runner the hook imports: [TestRunner.runSuite].

    JavaScript numbers that carry non-integral values (coordinates, clock
    readings, percentages) are IEEE binary64 values, modelled by Rocq's
    primitive floats.  Counters and list lengths are naturals, converted to
    binary64 where the code divides them.  Strings are sequences of code
    units, one [ascii] each. *)

From Stdlib Require Import ZArith Bool List Lia Ascii String PrimFloat FloatOps SpecFloat Uint63.
From stdpp Require Import gmap strings list pretty.

Local Open Scope string_scope.
Set Warnings "-inexact-float".

(** ** JavaScript primitives used by the code *)

Module Js.

(** [Math.round]: the integral number closest to [x], ties towards
    [+infinity]; [x] itself when it is integral, infinite or NaN.  The
    binary64 value [m * 2^e] is rounded exactly, over [Z]. *)
Definition Math_round (x : float) : float :=
  match Prim2SF x with
  | S754_finite s m e =>
      if (0 <=? e)%Z then x
      else
        let k := (2 ^ (- e))%Z in
        let n := if s then (- Z.pos m)%Z else Z.pos m in
        let r := ((2 * n + k) / (2 * k))%Z in
        if (r <? 0)%Z then PrimFloat.opp (PrimFloat.of_uint63 (Uint63.of_Z (- r)))
        else if s then PrimFloat.opp (PrimFloat.of_uint63 (Uint63.of_Z r))
        else PrimFloat.of_uint63 (Uint63.of_Z r)
  | _ => x
  end.

(** A non-negative integer below 2^53 as a Number. *)
Definition of_Z (n : Z) : float := PrimFloat.of_uint63 (Uint63.of_Z n).

(** A counter or an array length as a Number. *)
Definition of_nat (n : nat) : float := of_Z (Z.of_nat n).

(** White space and line terminators of [String.prototype.trim] among the
    code units below 256: TAB, LF, VT, FF, CR, SP and NBSP. *)
Definition is_white_space (c : ascii) : bool :=
  let n := nat_of_ascii c in
  (((9 <=? n) && (n <=? 13)) || (n =? 32) || (n =? 160))%nat.

Fixpoint trimStart (s : string) : string :=
  match s with
  | EmptyString => EmptyString
  | String c r => if is_white_space c then trimStart r else s
  end.

Definition trimEnd (s : string) : string :=
  String.rev (trimStart (String.rev s)).

Definition trim (s : string) : string := trimEnd (trimStart s).

(** Truthiness of a string, and of an optional (possibly [undefined])
    string or number. *)
Definition truthy_string (s : string) : bool := negb (String.eqb s "").

Definition truthy_opt_string (o : option string) : bool :=
  match o with Some s => truthy_string s | None => false end.

Definition truthy_opt_number (o : option Z) : bool :=
  match o with Some n => negb (n =? 0)%Z | None => false end.

(** [o || d] on an optional string and on an optional integer. *)
Definition or_string (o : option string) (d : string) : string :=
  match o with
  | Some s => if truthy_string s then s else d
  | None => d
  end.

Definition or_number (o : option Z) (d : Z) : Z :=
  match o with
  | Some n => if (n =? 0)%Z then d else n
  | None => d
  end.

End Js.

(** ** Data model ([types.ts]) *)

(** Modelled from the spec: [types.ts] is not part of the sources.  The
    data model (section 3) gives the members of [Severity], the four status
    values and the fields of an incident, with [priority_score] an integer.
    [Severity] is a string enum: the client casts the backend's string to
    it. *)
Module Severity.
Definition CRITICAL : string := "CRITICAL".
Definition MAJOR : string := "MAJOR".
Definition MINOR : string := "MINOR".
End Severity.

Inductive IncidentStatus := ACTIVE | DISPATCHED | SOLVED | ERROR.

Global Instance IncidentStatus_eq_dec : EqDecision IncidentStatus.
Proof. solve_decision. Defined.

Record Coords := { lat : float; lng : float }.

Record GroundingSource := { title : string; uri : string }.

Module Incident.
Record t := mk {
  id : string;
  timestamp : string;
  summary : string;
  type : string;
  severity : string;
  priority_score : Z;
  coords : option Coords;               (* [data.coords] may be undefined *)
  status : IncidentStatus;
  processing_latency : option float;    (* absent on the fallback *)
  grounding_sources : option (list GroundingSource)
}.

Definition with_status (s : IncidentStatus) (i : t) : t :=
  mk (id i) (timestamp i) (summary i) (type i) (severity i)
     (priority_score i) (coords i) s (processing_latency i)
     (grounding_sources i).
End Incident.

Abbreviation ProcessedIncident := Incident.t.

Inductive DiagStatus := PENDING | PASS | FAIL.

Global Instance DiagStatus_eq_dec : EqDecision DiagStatus.
Proof. solve_decision. Defined.

Module TestResult.
Record t := mk {
  id : string;
  name : string;
  status : DiagStatus;
  duration : float
}.
End TestResult.

Inductive ApiStatus := HEALTHY | DEGRADED | DOWN.

(** ** Errors and completions *)

(** A thrown value: an [Error] with its message and, for the failures of
    the inference SDK, the numeric [status] of the response.  Errors raised
    by the language itself ([SyntaxError] of [JSON.parse], [TypeError])
    carry no status. *)
Record JsError := { message : string; err_status : option Z }.

Definition Error (msg : string) : JsError :=
  {| message := msg; err_status := None |}.

(** How a call completes.  [OutOfFuel] only marks the end of the fuel of a
    recursive model; the theorems show it is never reached. *)
Inductive Completion (A : Type) :=
| Return (a : A)
| Throw (e : JsError)
| OutOfFuel.

Arguments Return {A} a.
Arguments Throw {A} e.
Arguments OutOfFuel {A}.

(** ** The application state *)

(** A call of [ai.models.generateContent] by the classification client. *)
Record Request := {
  model : string;
  contents : string;
  googleSearch : bool      (* [config.tools = [{ googleSearch: {} }]] *)
}.

(** What reaches the cloud facade ([GoogleCloud], best effort). *)
Inductive SinkEvent :=
| SyncIncident (incident_id : string)
| LogEvent (eventName : string) (params : list (string * string))
| LogError (context : string) (msg : string).

(** The state of the [useQPort] hook, with the module-level incident cache
    of [CacheController] and two histories kept for the proofs: the requests
    sent to the inference backend and the events sent to the sink.

    Modelled from the spec: [services/cacheService.ts] is not part of the
    sources.  Section 4.1 gives the incident cache as a map from a
    fingerprint to one incident, [lookup] returning the entry or absent and
    [store] an unconditional upsert where the last write wins. *)
Record Store := mkStore {
  incidents : list ProcessedIncident;
  isAnalyzing : bool;
  cacheHits : nat;
  totalRequests : nat;
  diagnosticLog : list TestResult.t;
  searchGrounding : bool;                    (* [prefs.searchGrounding] *)
  cache : gmap string ProcessedIncident;
  requests : list Request;
  sink : list SinkEvent
}.

Definition setIncidents (f : list ProcessedIncident -> list ProcessedIncident) (s : Store) : Store :=
  mkStore (f (incidents s)) (isAnalyzing s) (cacheHits s) (totalRequests s)
          (diagnosticLog s) (searchGrounding s) (cache s) (requests s) (sink s).

Definition setIsAnalyzing (b : bool) (s : Store) : Store :=
  mkStore (incidents s) b (cacheHits s) (totalRequests s)
          (diagnosticLog s) (searchGrounding s) (cache s) (requests s) (sink s).

Definition setCacheHits (f : nat -> nat) (s : Store) : Store :=
  mkStore (incidents s) (isAnalyzing s) (f (cacheHits s)) (totalRequests s)
          (diagnosticLog s) (searchGrounding s) (cache s) (requests s) (sink s).

Definition setTotalRequests (f : nat -> nat) (s : Store) : Store :=
  mkStore (incidents s) (isAnalyzing s) (cacheHits s) (f (totalRequests s))
          (diagnosticLog s) (searchGrounding s) (cache s) (requests s) (sink s).

Definition setDiagnosticLog (l : list TestResult.t) (s : Store) : Store :=
  mkStore (incidents s) (isAnalyzing s) (cacheHits s) (totalRequests s)
          l (searchGrounding s) (cache s) (requests s) (sink s).

Definition setSearchGrounding (b : bool) (s : Store) : Store :=
  mkStore (incidents s) (isAnalyzing s) (cacheHits s) (totalRequests s)
          (diagnosticLog s) b (cache s) (requests s) (sink s).

Definition cacheIncident (hash : string) (i : ProcessedIncident) (s : Store) : Store :=
  mkStore (incidents s) (isAnalyzing s) (cacheHits s) (totalRequests s)
          (diagnosticLog s) (searchGrounding s) (<[hash := i]> (cache s))
          (requests s) (sink s).

Definition getCachedIncident (hash : string) (s : Store) : option ProcessedIncident :=
  cache s !! hash.

Definition generateContent (r : Request) (s : Store) : Store :=
  mkStore (incidents s) (isAnalyzing s) (cacheHits s) (totalRequests s)
          (diagnosticLog s) (searchGrounding s) (cache s) (requests s ++ [r])%list
          (sink s).

Definition notify (e : SinkEvent) (s : Store) : Store :=
  mkStore (incidents s) (isAnalyzing s) (cacheHits s) (totalRequests s)
          (diagnosticLog s) (searchGrounding s) (cache s) (requests s)
          (sink s ++ [e])%list.

Definition initialStore (grounding : bool) : Store :=
  mkStore [] false 0 0 [] grounding ∅ [] [].

(** ** The inference backend and the other sources of non-determinism *)

(** The structured payload [JSON.parse] returns: every field may be
    missing. *)
Record RawData := {
  d_summary : option string;
  d_type : option string;
  d_severity : option string;
  d_priority_score : option Z;
  d_coords : option Coords
}.

Record WebChunk := { web_title : option string; web_uri : string }.

Record GroundingChunk := { web : option WebChunk }.

Record Response := {
  data : RawData;
  groundingChunks : option (list GroundingChunk)
}.

(** How the [try] block of one attempt ends: with a parsed response, or
    with a thrown value (a rejection of the SDK, or an error of
    [JSON.parse] or of a field access). *)
Inductive TryOutcome :=
| Resolved (r : Response)
| Raised (err : JsError).

(** Everything one call of the client reads from outside, per attempt
    index: the backend's answer, [Math.random], [Date] and
    [performance.now]. *)
Record World := {
  backend : nat -> TryOutcome;
  random_id : nat -> string;     (* [Math.random().toString(36).substr(2, 6).toUpperCase()] *)
  date_now36 : nat -> string;    (* [Date.now().toString(36).toUpperCase()] *)
  now_iso : nat -> string;       (* [new Date().toISOString()] *)
  perf_start : nat -> float;     (* [performance.now()] on entry *)
  perf_end : nat -> float        (* [performance.now()] after the response *)
}.

(** ** [processIncidentWithAI] (services/analyticsService.ts) *)

(** [!rawText.trim() || rawText.length < 5] *)
Definition invalid_input (rawText : string) : bool :=
  negb (Js.truthy_string (Js.trim rawText)) || (String.length rawText <? 5)%nat.

Definition groundingSources (chunks : option (list GroundingChunk)) : list GroundingSource :=
  match chunks with
  | Some cs =>
      flat_map (fun chunk =>
                  match web chunk with
                  | Some w => [ {| title := Js.or_string (web_title w) "Source";
                                   uri := web_uri w |} ]
                  | None => []
                  end) cs
  | None => []
  end.

(** [Math.min(10, Math.max(1, data.priority_score || 5))] *)
Definition clamp_priority (raw : option Z) : Z :=
  Z.min 10 (Z.max 1 (Js.or_number raw 5)).

Definition classified (w : World) (attempt : nat) (r : Response) : ProcessedIncident :=
  {| Incident.id := "INC-" +:+ random_id w attempt;
     Incident.timestamp := now_iso w attempt;
     Incident.summary := Js.or_string (d_summary (data r)) "Summary unavailable.";
     Incident.type := Js.or_string (d_type (data r)) "OTHER";
     Incident.severity := Js.or_string (d_severity (data r)) Severity.MINOR;
     Incident.priority_score := clamp_priority (d_priority_score (data r));
     Incident.coords := d_coords (data r);
     Incident.status := ACTIVE;
     Incident.processing_latency :=
       Some (Js.Math_round (PrimFloat.sub (perf_end w attempt) (perf_start w attempt)));
     Incident.grounding_sources := Some (groundingSources (groundingChunks r)) |}.

Definition fallback (w : World) (attempt : nat) : ProcessedIncident :=
  {| Incident.id := "ERR-" +:+ date_now36 w attempt;
     Incident.timestamp := now_iso w attempt;
     Incident.summary := "System fault in AI parsing logic.";
     Incident.type := "OTHER";
     Incident.severity := Severity.MAJOR;
     Incident.priority_score := 5;
     Incident.coords := Some {| lat := 37.7749; lng := -122.4194 |};
     Incident.status := ERROR;
     Incident.processing_latency := None;
     Incident.grounding_sources := None |}.

(** [err.status === 429 || !err.status] *)
Definition retryable_status (err : JsError) : bool :=
  match err_status err with
  | Some c => (c =? 429)%Z || negb (Js.truthy_opt_number (Some c))
  | None => true
  end.

(** [retryCount < 3 && (err.status === 429 || !err.status)] *)
Definition should_retry (retryCount : nat) (err : JsError) : bool :=
  (retryCount <? 3)%nat && retryable_status err.

(** The request of the client: the model, the raw text and the search tool
    when [useGrounding] is set. *)
Definition classifyRequest (rawText : string) (useGrounding : bool) : Request :=
  {| model := "gemini-3-flash-preview";
     contents := rawText;
     googleSearch := useGrounding |}.

(** The recursion of the client on [retryCount + 1], on fuel.  The backoff
    delay before the recursive call changes no state. *)
Fixpoint processIncidentWithAI_fuel (fuel : nat) (w : World) (rawText : string)
    (useGrounding : bool) (retryCount : nat) (s : Store)
  : Completion ProcessedIncident * Store :=
  if invalid_input rawText then (Throw (Error "Input invalid."), s)
  else
    let s1 := generateContent (classifyRequest rawText useGrounding) s in
    match backend w retryCount with
    | Resolved r => (Return (classified w retryCount r), s1)
    | Raised err =>
        if should_retry retryCount err then
          match fuel with
          | S fuel' =>
              processIncidentWithAI_fuel fuel' w rawText useGrounding (S retryCount) s1
          | O => (OutOfFuel, s1)
          end
        else (Return (fallback w retryCount), s1)
    end.

(** No call recurses more than [3 - retryCount] times. *)
Definition processIncidentWithAI (w : World) (rawText : string)
    (useGrounding : bool) (retryCount : nat) (s : Store)
  : Completion ProcessedIncident * Store :=
  processIncidentWithAI_fuel (3 - retryCount) w rawText useGrounding retryCount s.

Arguments processIncidentWithAI : simpl never.

(** How an awaited call of a collaborator settles. *)
Inductive Settled (A : Type) :=
| Fulfilled (a : A)
| Rejected (e : JsError).

Arguments Fulfilled {A} a.
Arguments Rejected {A} e.

(** ** [TestRunner.runSuite] *)

Module TestResultDetails.
Record t := mk {
  name : string;
  status : DiagStatus;          (* ['PASS' | 'FAIL'] *)
  duration : float;
  message : option string
}.
End TestResultDetails.

Module TestRunner.
Section Suite.

(** [CacheController.generateHash], a parameter: the function is not part
    of the sources. *)
Variable generateHash : string -> Settled string.

(** The readings of [performance.now()], in the order they are taken. *)
Variable clock : nat -> float.

(** The suite's state: the [results] array and the number of clock
    readings taken so far. *)
Definition Run : Type := list TestResultDetails.t * nat.

(** The helper [runTest]: [fn] is how [await fn()] settles. *)
Definition runTest (name : string) (fn : Settled unit) (st : Run) : Run :=
  let '(results, tick) := st in
  let start := clock tick in
  match fn with
  | Fulfilled _ =>
      ((results ++ [ TestResultDetails.mk name PASS
                       (PrimFloat.sub (clock (S tick)) start) None ])%list,
       S (S tick))
  | Rejected e =>
      ((results ++ [ TestResultDetails.mk name FAIL
                       (PrimFloat.sub (clock (S tick)) start) (Some (message e)) ])%list,
       S (S tick))
  end.

(** 1. Data integrity: the mock incident of the check, created at [now]. *)
Definition mock (now : string) : ProcessedIncident :=
  {| Incident.id := "TEST"; Incident.timestamp := now;
     Incident.summary := "T"; Incident.type := "FIRE";
     Incident.severity := Severity.CRITICAL; Incident.priority_score := 10;
     Incident.coords := Some {| lat := 0; lng := 0 |};
     Incident.status := ACTIVE;
     Incident.processing_latency := None;
     Incident.grounding_sources := None |}.

Definition check_data_integrity (now : string) : Settled unit :=
  if negb (Js.truthy_string (Incident.id (mock now)))
     || negb (Js.truthy_string (Incident.timestamp (mock now)))
  then Rejected (Error "Missing required fields")
  else if (10 <? Incident.priority_score (mock now))%Z
  then Rejected (Error "Priority score out of bounds")
  else Fulfilled tt.

(** 2. Geospatial bounds. *)
Definition check_geospatial : Settled unit :=
  let sf := {| lat := 37.7749; lng := -122.4194 |} in
  let isValid := fun l : float => PrimFloat.ltb 37 l && PrimFloat.ltb l 38 in
  if negb (isValid (lat sf)) then Rejected (Error "Geospatial validation failure")
  else Fulfilled tt.

(** 3. Cache hashing. *)
Definition check_hash : Settled unit :=
  match generateHash "test_payload" with
  | Fulfilled hash =>
      if negb (String.length hash =? 64)%nat
      then Rejected (Error "SHA-256 Hash failure")
      else Fulfilled tt
  | Rejected e => Rejected e
  end.

(** 4. State immutability. *)
Definition check_immutability : Settled unit :=
  let original := "ACTIVE" in
  let next := "SOLVED" in
  if String.eqb original next
  then Rejected (Error "Mutation detected in reducer logic")
  else Fulfilled tt.

Definition runSuite (now : string) : list TestResultDetails.t :=
  let st : Run := ([], 0) in
  let st := runTest "Model Data Integrity" (check_data_integrity now) st in
  let st := runTest "Geospatial Bounds Logic" check_geospatial st in
  let st := runTest "Cache Storage Quota Check" check_hash st in
  let st := runTest "State Immutability" check_immutability st in
  fst st.

(** A battery of checks run one after the other through [runTest]. *)
Definition runChecks (checks : list (string * Settled unit)) (st : Run) : Run :=
  fold_left (fun st c => runTest (fst c) (snd c) st) checks st.

Definition battery (now : string) : list (string * Settled unit) :=
  [ ("Model Data Integrity", check_data_integrity now);
    ("Geospatial Bounds Logic", check_geospatial);
    ("Cache Storage Quota Check", check_hash);
    ("State Immutability", check_immutability) ].

End Suite.
End TestRunner.

(** ** The [useQPort] hook (hooks/useQPort.ts) *)

Record DashboardStats := {
  total : nat;
  critical : nat;
  dispatched : nat;
  solved : nat
}.

Record SystemHealth := {
  api_status : ApiStatus;
  cache_hit_rate : float;
  active_tests_passing : float;
  last_sync : string;
  diagnostic_log : list TestResult.t
}.

Definition status_name (st : IncidentStatus) : string :=
  match st with
  | ACTIVE => "ACTIVE"
  | DISPATCHED => "DISPATCHED"
  | SOLVED => "SOLVED"
  | ERROR => "ERROR"
  end.

Definition not_solved (i : ProcessedIncident) : bool :=
  negb (bool_decide (Incident.status i = SOLVED)).

Definition stats (incidents : list ProcessedIncident) : DashboardStats :=
  let active := List.filter not_solved incidents in
  {| total := length active;
     critical :=
       length (List.filter
                 (fun i => String.eqb (Incident.severity i) Severity.CRITICAL) active);
     dispatched :=
       length (List.filter
                 (fun i => bool_decide (Incident.status i = DISPATCHED)) active);
     solved :=
       length (List.filter
                 (fun i => bool_decide (Incident.status i = SOLVED)) incidents) |}.

(** [Math.round((part / whole) * 100)], guarded by [whole === 0]. *)
Definition percentage (part whole : nat) : float :=
  if (whole =? 0)%nat then 0%float
  else Js.Math_round
         (PrimFloat.mul (PrimFloat.div (Js.of_nat part) (Js.of_nat whole)) 100).

Definition core_failed (log : list TestResult.t) : bool :=
  match List.find (fun t => String.eqb (TestResult.id t) "core") log with
  | Some t => bool_decide (TestResult.status t = FAIL)
  | None => false                       (* [undefined === 'FAIL'] *)
  end.

(** [now] is [new Date().toLocaleTimeString()]. *)
Definition health (now : string) (s : Store) : SystemHealth :=
  let passing :=
    length (List.filter (fun t => bool_decide (TestResult.status t = PASS))
                        (diagnosticLog s)) in
  {| api_status :=
       if core_failed (diagnosticLog s) then DOWN
       else if existsb (fun i => bool_decide (Incident.status i = ERROR)) (incidents s)
            then DEGRADED
            else HEALTHY;
     cache_hit_rate := percentage (cacheHits s) (totalRequests s);
     active_tests_passing := percentage passing (length (diagnosticLog s));
     last_sync := now;
     diagnostic_log := diagnosticLog s |}.

Definition same_id (a b : ProcessedIncident) : bool :=
  String.eqb (Incident.id b) (Incident.id a).

(** The reducer of a cache hit: the cached incident goes to the front. *)
Definition moveToFront (cached : ProcessedIncident) (prev : list ProcessedIncident)
  : list ProcessedIncident :=
  match List.find (same_id cached) prev with
  | Some _ => cached :: List.filter (fun i => negb (same_id cached i)) prev
  | None => cached :: prev
  end.

Definition updateStatus (id : string) (st : IncidentStatus) (s : Store) : Store :=
  let s := setIncidents
             (List.map (fun i => if String.eqb (Incident.id i) id
                                 then Incident.with_status st i else i)) s in
  notify (LogEvent "STATUS_UPDATE" [("id", id); ("status", status_name st)]) s.

(** [updatePrefs], for the one preference the pipeline reads. *)
Definition updatePrefs (searchGrounding : bool) (s : Store) : Store :=
  setSearchGrounding searchGrounding s.

Section Hook.

(** [CacheController.generateHash], a parameter: the function is not part
    of the sources. *)
Variable generateHash : string -> Settled string.

(** The [try] block of [addIncident]. *)
Definition addIncident_try (w : World) (rawText : string) (s : Store)
  : Completion ProcessedIncident * Store :=
  match generateHash rawText with
  | Rejected e => (Throw e, s)
  | Fulfilled hash =>
      match getCachedIncident hash s with
      | Some cached =>
          let s := setCacheHits S s in
          let s := setIncidents (moveToFront cached) s in
          let s := setIsAnalyzing false s in
          (Return cached, s)
      | None =>
          match processIncidentWithAI w rawText (searchGrounding s) 0 s with
          | (Return processed, s) =>
              let s := notify (SyncIncident (Incident.id processed)) s in
              let s := cacheIncident hash processed s in
              let s := setIncidents (cons processed) s in
              let s := setIsAnalyzing false s in
              let s := notify (LogEvent "INCIDENT_PROCESSED"
                                 [("type", Incident.type processed);
                                  ("severity", Incident.severity processed)]) s in
              (Return processed, s)
          | (Throw e, s) => (Throw e, s)
          | (OutOfFuel, s) => (OutOfFuel, s)
          end
      end
  end.

(** [addIncident]: the result is [Some] incident, or [None] for [null]. *)
Definition addIncident (w : World) (rawText : string) (s : Store)
  : Completion (option ProcessedIncident) * Store :=
  let s := setTotalRequests S s in
  let s := setIsAnalyzing true s in
  match addIncident_try w rawText s with
  | (Return i, s) => (Return (Some i), s)
  | (Throw e, s) =>
      let s := setIsAnalyzing false s in
      let s := notify (LogError "ADD_INCIDENT" (message e)) s in
      (Return None, s)
  | (OutOfFuel, s) => (OutOfFuel, s)
  end.

(** What [runDiagnostics] reads from outside: whether the probe of
    [checkApiHealth] went through, and the clocks. *)
Record DiagWorld := {
  probe_ok : bool;
  api_start : float;
  api_end : float;
  suite_clock : nat -> float;
  suite_now : string
}.

Definition suitePass (suiteResults : list TestResultDetails.t) : bool :=
  forallb (fun r => bool_decide (TestResultDetails.status r = PASS)) suiteResults.

Definition suiteEntries (suiteResults : list TestResultDetails.t) : list TestResult.t :=
  imap (fun i r => TestResult.mk ("suite_" +:+ pretty i)
                     (TestResultDetails.name r)
                     (TestResultDetails.status r)
                     (Js.Math_round (TestResultDetails.duration r)))
       suiteResults.

Definition runDiagnostics (d : DiagWorld) (s : Store) : Store :=
  let s := notify (LogEvent "DIAGNOSTICS_STARTED" []) s in
  let s := setDiagnosticLog
             [ TestResult.mk "core" "Core System Health" PENDING 0;
               TestResult.mk "cloud" "Google Cloud Handshake" PENDING 0;
               TestResult.mk "suite" "Integration Test Suite" PENDING 0 ] s in
  let s := generateContent {| model := "gemini-3-flash-preview";
                              contents := "ping";
                              googleSearch := false |} s in
  let isApiHealthy := probe_ok d in
  let suiteResults := TestRunner.runSuite generateHash (suite_clock d) (suite_now d) in
  let s := setDiagnosticLog
             (TestResult.mk "core" "Core GenAI API"
                (if isApiHealthy then PASS else FAIL)
                (Js.Math_round (PrimFloat.sub (api_end d) (api_start d)))
              :: TestResult.mk "cloud" "GCP Service Mock" PASS 50
              :: suiteEntries suiteResults) s in
  notify (LogEvent "DIAGNOSTICS_COMPLETED"
            [("success", if suitePass suiteResults then "true" else "false")]) s.

(** The states of the hook: the initial one and those its operations lead
    to. *)
Inductive reachable : Store -> Prop :=
| reach_init g : reachable (initialStore g)
| reach_addIncident w rawText s :
    reachable s -> reachable (snd (addIncident w rawText s))
| reach_updateStatus id st s :
    reachable s -> reachable (updateStatus id st s)
| reach_updatePrefs g s :
    reachable s -> reachable (updatePrefs g s)
| reach_runDiagnostics d s :
    reachable s -> reachable (runDiagnostics d s).

(** Every entry of the cache is filed under the fingerprint of a text the
    client accepts. *)
Definition cache_sound (s : Store) : Prop :=
  ∀ h i, cache s !! h = Some i ->
         ∃ t, invalid_input t = false ∧ generateHash t = Fulfilled h.

(** Two texts never share a fingerprint.

    Modelled from the spec: section 4.1 requires of the fingerprint that
    its collision probability is negligible; the properties that depend on
    it take it as a hypothesis. *)
Definition collision_free : Prop :=
  ∀ t1 t2 h, generateHash t1 = Fulfilled h -> generateHash t2 = Fulfilled h -> t1 = t2.

End Hook.

(** ** Vocabulary of the properties *)

(** The number of elements of [l] that satisfy [P]. *)
Definition count {A} (P : A -> Prop) `{!∀ x, Decision (P x)} (l : list A) : nat :=
  length (filter P l).

(** The entry of the connectivity probe in a diagnostic log. *)
Definition core_entry (log : list TestResult.t) : option TestResult.t :=
  List.find (fun t => String.eqb (TestResult.id t) "core") log.

(** Attempt [j] of the client fails and is retried. *)
Definition failed_retryably (w : World) (j : nat) : Prop :=
  ∃ e, backend w j = Raised e ∧ should_retry j e = true.

(** Attempt [k] of the client fails and is not retried. *)
Definition failed_for_good (w : World) (k : nat) : Prop :=
  ∃ e, backend w k = Raised e ∧ should_retry k e = false.

(** The outcome of attempt [k] when it is not retried. *)
Definition stops_with (w : World) (k : nat) (i : ProcessedIncident) : Prop :=
  (∃ r, backend w k = Resolved r ∧ i = classified w k r)
  ∨ (failed_for_good w k ∧ i = fallback w k).

(** The four attempts 0..3 all fail, the first three with a status that
    allows a retry: the retries are exhausted. *)
Definition retries_exhausted (w : World) : Prop :=
  ∀ j, j <= 3 -> ∃ e, backend w j = Raised e ∧ (j < 3 -> retryable_status e = true).

(** Attempt [k] is reached through retried failures and fails with a status
    that allows no retry. *)
Definition fails_permanently_at (w : World) (k : nat) : Prop :=
  k <= 3
  ∧ (∀ j, j < k -> ∃ e, backend w j = Raised e ∧ retryable_status e = true)
  ∧ ∃ e, backend w k = Raised e ∧ retryable_status e = false.

(** The synthesized fallback incident, field by field. *)
Definition is_fallback (i : ProcessedIncident) : Prop :=
  (∃ suffix, Incident.id i = "ERR-" +:+ suffix)
  ∧ Incident.status i = ERROR
  ∧ Incident.severity i = Severity.MAJOR
  ∧ Incident.priority_score i = 5%Z
  ∧ Incident.coords i = Some {| lat := 37.7749; lng := -122.4194 |}
  ∧ Incident.summary i = "System fault in AI parsing logic."
  ∧ Incident.type i = "OTHER"
  ∧ Incident.grounding_sources i = None
  ∧ Incident.processing_latency i = None.

(** The invariants of an incident of the data model that the client is
    answerable for: an id of one of the two formats, non-empty summary, type
    and severity, a priority within 1..10, and the status of a fresh
    incident. *)
Definition well_formed (i : ProcessedIncident) : Prop :=
  (∃ suffix, Incident.id i = "INC-" +:+ suffix ∨ Incident.id i = "ERR-" +:+ suffix)
  ∧ Incident.summary i ≠ ""
  ∧ Incident.type i ≠ ""
  ∧ Incident.severity i ≠ ""
  ∧ (1 <= Incident.priority_score i <= 10)%Z
  ∧ (Incident.status i = ACTIVE ∨ Incident.status i = ERROR).

(** [m] calls of the backend with the request [r]. *)
Definition sent (m : nat) (r : Request) (s : Store) : Store :=
  Nat.iter m (generateContent r) s.

(** The nearest value within 1..10. *)
Definition clamp_1_10 (x : Z) : Z :=
  if (x <? 1)%Z then 1%Z else if (10 <? x)%Z then 10%Z else x.

(** ** Sample runs *)

(** A world whose backend answers the attempts with [outcomes], in order,
    and fails without a status afterwards; fixed clocks and random draws. *)
Definition sample_world (outcomes : list TryOutcome) : World :=
  {| backend := fun n => nth n outcomes (Raised (Error "Failed to fetch"));
     random_id := fun _ => "K3J9QZ";
     date_now36 := fun _ => "MH1XK2A0";
     now_iso := fun _ => "2025-01-01T00:00:00.000Z";
     perf_start := fun _ => 100%float;
     perf_end := fun _ => 350.5%float |}.

Definition sample_payload (score : option Z) : Response :=
  {| data := {| d_summary := Some "Kitchen fire on the third floor.";
                d_type := Some "FIRE";
                d_severity := Some "CRITICAL";
                d_priority_score := score;
                d_coords := Some {| lat := 37.78; lng := -122.41 |} |};
     groundingChunks := None |}.

(** A payload that departs from what the system instruction asks for: a
    severity and a type outside the enumerations, and no coordinates. *)
Definition stray_payload : Response :=
  {| data := {| d_summary := Some "Tremor felt downtown.";
                d_type := Some "EARTHQUAKE";
                d_severity := Some "HIGH";
                d_priority_score := Some 7%Z;
                d_coords := None |};
     groundingChunks := None |}.

Definition status_error (code : Z) : JsError :=
  {| message := "request failed"; err_status := Some code |}.

(** The percentage [100 * part / whole] rounded to the nearest integer,
    halves upwards, in exact integer arithmetic. *)
Definition exact_percentage (part whole : nat) : Z :=
  ((200 * Z.of_nat part + Z.of_nat whole) / (2 * Z.of_nat whole))%Z.

(** [100 * part / whole] lies exactly half way between two integers. *)
Definition tie (part whole : nat) : bool :=
  ((200 * Z.of_nat part) mod (2 * Z.of_nat whole) =? Z.of_nat whole)%Z.

(** [percentage] is the exact percentage, or one below it at a tie;
    [PrimFloat.eqb] is the [===] of numbers. *)
Definition near_exact (part whole : nat) : bool :=
  PrimFloat.eqb (percentage part whole) (Js.of_Z (exact_percentage part whole))
  || (tie part whole
      && PrimFloat.eqb (percentage part whole)
                       (Js.of_Z (exact_percentage part whole - 1))).

Definition near_exact_upto (bound : nat) : bool :=
  forallb (fun whole => forallb (fun part => near_exact part whole) (seq 0 (S whole)))
          (seq 1 bound).

(** The record [runTest] files for a check whose first clock reading has
    index [tick]. *)
Definition record_of (clock : nat -> float) (tick : nat) (c : string * Settled unit)
  : TestResultDetails.t :=
  TestResultDetails.mk (fst c)
    (match snd c with Fulfilled _ => PASS | Rejected _ => FAIL end)
    (PrimFloat.sub (clock (S tick)) (clock tick))
    (match snd c with Fulfilled _ => None | Rejected e => Some (message e) end).

(** The ids of an incident list, in order. *)
Definition ids (l : list ProcessedIncident) : list string :=
  List.map Incident.id l.

(** An incident list without the incidents of a given id. *)
Definition without (id : string) (l : list ProcessedIncident) : list ProcessedIncident :=
  filter (fun i => Incident.id i ≠ id) l.

(** A fingerprint that is collision free: the text itself. *)
Definition sample_hash (t : string) : Settled string := Fulfilled t.

(** A session of 40 submissions: 16 texts that are too short, one accepted
    text, and the same text 23 times again. *)
Definition sample_text : string := "Fire at 5th and Main".

Definition submit_short (s : Store) : Store :=
  snd (addIncident sample_hash (sample_world []) "hi" s).

Definition submit_sample (s : Store) : Store :=
  snd (addIncident sample_hash
         (sample_world [Resolved (sample_payload (Some 7%Z))]) sample_text s).

Definition sample_session : Store :=
  Nat.iter 23 submit_sample (submit_sample (Nat.iter 16 submit_short (initialStore true))).

(** ** The cloud facade: [GoogleCloud.auth] *)

Module GoogleCloud.

Record UserProfile := {
  uid : string;
  email : string;
  displayName : string;
  role : string
}.

(** The [auth] object and the browser's [localStorage]. *)
Record Auth := {
  currentUser : option UserProfile;
  localStorage : gmap string string
}.

Definition token_key : string := "qport_auth_token".

(** [signIn]; [rand] is [Math.random().toString(36).substr(2, 9)]. *)
Definition signIn (rand : string) (a : Auth) : UserProfile * Auth :=
  let user := {| uid := "usr_" +:+ rand;
                 email := "commander@qport.sf.gov";
                 displayName := "Unit Commander";
                 role := "COMMANDER" |} in
  (user,
   {| currentUser := Some user;
      localStorage := <[token_key := uid user]> (localStorage a) |}).

Definition signOut (a : Auth) : Auth :=
  {| currentUser := None;
     localStorage := delete token_key (localStorage a) |}.

(** [!!localStorage.getItem('qport_auth_token')] *)
Definition isAuthenticated (a : Auth) : bool :=
  Js.truthy_opt_string (localStorage a !! token_key).

End GoogleCloud.

(** ** The marker effect of [IncidentMap] (components/IncidentMap.tsx) *)

Module IncidentMap.

Record MarkerOptions := {
  radius : Z;
  fillColor : string;
  fillOpacity : Z;
  color : string;
  weight : Z;
  opacity : Z
}.

(** A circle marker on the map: position, style and tooltip. *)
Record Marker := {
  latlng : float * float;
  style : MarkerOptions;
  tooltip : string
}.

(** The [markers] ref, with the ids passed to [bringToFront], in order. *)
Record Layers := {
  markers : gmap string Marker;
  raised : list string
}.

(** [focusedIncident?.id === inc.id] *)
Definition isFocused (focused : option ProcessedIncident) (inc : ProcessedIncident) : bool :=
  match focused with
  | Some f => String.eqb (Incident.id f) (Incident.id inc)
  | None => false
  end.

Definition markerOptions (focused : option ProcessedIncident) (inc : ProcessedIncident)
  : MarkerOptions :=
  let markerColor :=
    if String.eqb (Incident.severity inc) Severity.CRITICAL then "#ef4444"
    else if String.eqb (Incident.severity inc) Severity.MAJOR then "#f59e0b"
    else "#3b82f6" in
  {| radius := if isFocused focused inc then 12 else 8;
     fillColor := markerColor;
     fillOpacity := 1;
     color := if isFocused focused inc then "#ffffff" else "#000000";
     weight := if isFocused focused inc then 3 else 2;
     opacity := 1 |}.

(** The body of [incidents.forEach]: the thrown error, if any, and the
    layers.  Reading [inc.coords.lat] of an incident without coordinates
    throws a [TypeError], before the marker is created or moved. *)
Definition place (focused : option ProcessedIncident) (inc : ProcessedIncident)
    (st : Layers) : option JsError * Layers :=
  match markers st !! Incident.id inc with
  | None =>
      match Incident.coords inc with
      | None => (Some (Error "Cannot read properties of undefined (reading 'lat')"), st)
      | Some c =>
          (None,
           {| markers := <[Incident.id inc :=
                             {| latlng := (lat c, lng c);
                                style := markerOptions focused inc;
                                tooltip := Incident.summary inc |}]> (markers st);
              raised := raised st |})
      end
  | Some marker =>
      match Incident.coords inc with
      | None => (Some (Error "Cannot read properties of undefined (reading 'lat')"), st)
      | Some c =>
          (None,
           {| markers := <[Incident.id inc :=
                             {| latlng := (lat c, lng c);
                                style := markerOptions focused inc;
                                tooltip := tooltip marker |}]> (markers st);
              raised := if isFocused focused inc
                        then (raised st ++ [Incident.id inc])%list
                        else raised st |})
      end
  end.

Fixpoint placeAll (focused : option ProcessedIncident) (incidents : list ProcessedIncident)
    (st : Layers) : option JsError * Layers :=
  match incidents with
  | [] => (None, st)
  | inc :: rest =>
      match place focused inc st with
      | (None, st') => placeAll focused rest st'
      | (Some e, st') => (Some e, st')
      end
  end.

(** The effect that updates the markers; [ready] is
    [mapInstance.current && window.L]. *)
Definition updateMarkers (ready : bool) (incidents : list ProcessedIncident)
    (focused : option ProcessedIncident) (st : Layers) : option JsError * Layers :=
  if negb ready then (None, st)
  else
    let currentIds : gset string := list_to_set (List.map Incident.id incidents) in
    let st := {| markers := filter (fun kv => kv.1 ∈ currentIds) (markers st);
                 raised := raised st |} in
    placeAll focused incidents st.

End IncidentMap.

(** ** Sequences of operations of the hook *)

Section Evolution.

Variable generateHash : string -> Settled string.


End Evolution.

(** ** Further vocabulary *)

(** The code units of a string. *)
Definition chars (s : string) : list ascii := list_ascii_of_string s.

(** The incidents of a list that carry the id [id]. *)
Definition with_id (id : string) (l : list ProcessedIncident) : list ProcessedIncident :=
  filter (fun i => Incident.id i = id) l.

(** The ids of the entries of a diagnostic log, in order. *)
Definition log_ids (log : list TestResult.t) : list string :=
  List.map TestResult.id log.

(** The fingerprint check of the suite passes. *)
Definition digest_ok (generateHash : string -> Settled string) : Prop :=
  ∃ digest, generateHash "test_payload" = Fulfilled digest ∧ String.length digest = 64.

Global Instance digest_ok_dec generateHash : Decision (digest_ok generateHash).
Proof.
  unfold digest_ok. destruct (generateHash "test_payload") as [digest|e].
  - destruct (decide (String.length digest = 64)) as [Hl|Hl].
    + left. by exists digest.
    + right. intros (d' & [= <-] & Hd). done.
  - right. by intros (d' & [=] & _).
Defined.

(** A fingerprint of 64 characters for the sample runs: the text, cut or
    padded to 64 characters. *)
Definition sample_digest (t : string) : Settled string :=
  Fulfilled (String.substring 0 64
               (t +:+ "0000000000000000000000000000000000000000000000000000000000000000")).

(** * Properties *)

(** ** The primitives on sample inputs *)

Example trim_samples :
  Js.trim "  ab c  " = "ab c" ∧ Js.trim "   " = "" ∧ Js.trim "hi" = "hi".
Proof. repeat split. Qed.

Example invalid_input_samples :
  invalid_input "" = true
  ∧ invalid_input "hi" = true
  ∧ invalid_input "      " = true
  ∧ invalid_input "  hi " = false
  ∧ invalid_input "Fire at 5th and Main" = false.
Proof. repeat split. Qed.

Example Math_round_samples :
  Js.Math_round 2.5 = 3%float
  ∧ Js.Math_round (-2.5) = (-2)%float
  ∧ Js.Math_round 0.49999999999999994 = 0%float
  ∧ Js.Math_round 250.5 = 251%float
  ∧ Js.Math_round 1e300 = 1e300%float.
Proof. repeat split; vm_compute; reflexivity. Qed.

Example should_retry_samples :
  should_retry 0 (status_error 429) = true
  ∧ should_retry 2 (Error "Failed to fetch") = true
  ∧ should_retry 3 (status_error 429) = false
  ∧ should_retry 0 (status_error 500) = false.
Proof. repeat split. Qed.

(** ** Lists: the boolean filters of the code and counting *)

Lemma filter_bool_decide {A} (P : A -> Prop) `{!∀ x, Decision (P x)} (l : list A) :
  List.filter (fun x => bool_decide (P x)) l = filter P l.
Proof.
  induction l as [|x l IH]; [done|].
  cbn [List.filter]. rewrite filter_cons, IH.
  destruct (decide (P x)) as [HP|HP].
  - by rewrite bool_decide_eq_true_2.
  - by rewrite bool_decide_eq_false_2.
Qed.

Lemma filter_ext_bool {A} (f : A -> bool) (P : A -> Prop) `{!∀ x, Decision (P x)}
    (l : list A) :
  (∀ x, f x = bool_decide (P x)) -> List.filter f l = filter P l.
Proof.
  intros Hf. rewrite <- filter_bool_decide.
  apply List.filter_ext. exact Hf.
Qed.

Lemma filter_filter_bool {A} (f g : A -> bool) (l : list A) :
  List.filter f (List.filter g l) = List.filter (fun x => g x && f x) l.
Proof.
  induction l as [|x l IH]; [done|].
  cbn [List.filter]. destruct (g x); cbn [List.filter andb]; rewrite IH; done.
Qed.

(** ** [stats] *)

Lemma not_solved_decide (i : ProcessedIncident) :
  not_solved i = bool_decide (Incident.status i ≠ SOLVED).
Proof.
  unfold not_solved. by rewrite bool_decide_not.
Qed.

Lemma string_eqb_decide (a b : string) : String.eqb a b = bool_decide (a = b).
Proof.
  destruct (String.eqb_spec a b) as [->|Hne].
  - by rewrite bool_decide_eq_true_2.
  - by rewrite bool_decide_eq_false_2.
Qed.

(** C6. For every incident list, [stats] counts [total], [critical] and
    [dispatched] over the incidents whose status is not SOLVED ([critical]
    those of CRITICAL severity among them, [dispatched] those of status
    DISPATCHED among them) and [solved] over all the incidents of status
    SOLVED.  For four incidents of statuses ACTIVE, ACTIVE, DISPATCHED and
    SOLVED, whatever their other fields, [total] is 3, [dispatched] is 1 and
    [solved] is 1. *)
Theorem stats_counts (l : list ProcessedIncident) :
  total (stats l) = count (fun i => Incident.status i ≠ SOLVED) l
  ∧ critical (stats l)
    = count (fun i => Incident.status i ≠ SOLVED
                      ∧ Incident.severity i = Severity.CRITICAL) l
  ∧ dispatched (stats l)
    = count (fun i => Incident.status i ≠ SOLVED
                      ∧ Incident.status i = DISPATCHED) l
  ∧ solved (stats l) = count (fun i => Incident.status i = SOLVED) l
  ∧ ∀ a b c d : ProcessedIncident,
      let four := [ Incident.with_status ACTIVE a; Incident.with_status ACTIVE b;
                    Incident.with_status DISPATCHED c; Incident.with_status SOLVED d ] in
      total (stats four) = 3 ∧ dispatched (stats four) = 1 ∧ solved (stats four) = 1.
Proof.
  unfold stats, count; cbn [total critical dispatched solved].
  repeat split.
  - f_equal. apply filter_ext_bool, not_solved_decide.
  - f_equal. rewrite filter_filter_bool. apply filter_ext_bool.
    intros i. rewrite not_solved_decide, string_eqb_decide.
    by rewrite bool_decide_and.
  - f_equal. rewrite filter_filter_bool. apply filter_ext_bool.
    intros i. rewrite not_solved_decide. by rewrite bool_decide_and.
  - f_equal. apply filter_bool_decide.
Qed.

(** Every incident is counted once, as solved or in [total]. *)
Lemma stats_partition (l : list ProcessedIncident) :
  total (stats l) + solved (stats l) = length l.
Proof.
  unfold stats; cbn [total solved].
  induction l as [|i l IH]; [done|].
  cbn [List.filter]. unfold not_solved at 1.
  destruct (bool_decide (Incident.status i = SOLVED)); cbn [negb length]; lia.
Qed.

(** ** [health] *)

Lemma core_failed_spec (log : list TestResult.t) :
  core_failed log = true
  <-> ∃ t, core_entry log = Some t ∧ TestResult.status t = FAIL.
Proof.
  unfold core_failed, core_entry.
  destruct (List.find _ log) as [t|].
  - rewrite bool_decide_eq_true. split.
    + intros H. by exists t.
    + intros (t' & [= <-] & H). exact H.
  - split; [done|]. by intros (t & ? & _).
Qed.

Lemma some_error_spec (l : list ProcessedIncident) :
  existsb (fun i => bool_decide (Incident.status i = ERROR)) l = true
  <-> ∃ i, In i l ∧ Incident.status i = ERROR.
Proof.
  rewrite existsb_exists. split; intros (i & Hi & H); exists i; split; try done.
  - by apply bool_decide_eq_true in H.
  - by apply bool_decide_eq_true.
Qed.

Lemma core_entry_runDiagnostics generateHash (d : DiagWorld) (s : Store) :
  core_failed (diagnosticLog (runDiagnostics generateHash d s)) = negb (probe_ok d).
Proof.
  unfold runDiagnostics, notify, setDiagnosticLog, core_failed; cbn.
  by destruct (probe_ok d).
Qed.

Lemma near_exact_100 (part whole : nat) :
  1 <= whole <= 100 -> part <= whole -> near_exact part whole = true.
Proof.
  intros Hwhole Hpart.
  assert (near_exact_upto 100 = true) as Hall by (vm_compute; reflexivity).
  unfold near_exact_upto in Hall. rewrite forallb_forall in Hall.
  specialize (Hall whole). rewrite in_seq, forallb_forall in Hall.
  apply Hall; [lia|]. apply in_seq. lia.
Qed.

Lemma sample_session_reachable : reachable sample_hash sample_session.
Proof.
  assert (∀ f n s, (∀ s', reachable sample_hash s' -> reachable sample_hash (f s')) ->
                   reachable sample_hash s -> reachable sample_hash (Nat.iter n f s))
    as Hiter.
  { intros f n s Hf Hs. induction n as [|n IH]; [done|]. by apply Hf. }
  unfold sample_session.
  apply Hiter; [intros s' Hs'; by apply reach_addIncident|].
  apply reach_addIncident.
  apply Hiter; [intros s' Hs'; by apply reach_addIncident|].
  apply reach_init.
Qed.

(** C7 as stated fails after 23 cache hits in 40 requests: the rounded
    value of [100 * 23 / 40 = 57.5] is 58, in exact arithmetic and in
    binary64 alike, while [health] reports 57, because the binary64 quotient
    [23 / 40] times 100 is 57.49999999999999. *)
Lemma cache_hit_rate_at_tie :
  reachable sample_hash sample_session
  ∧ cacheHits sample_session = 23
  ∧ totalRequests sample_session = 40
  ∧ cache_hit_rate (health "12:00:00" sample_session) = 57%float
  ∧ Js.Math_round (PrimFloat.div (PrimFloat.mul 100 (Js.of_nat 23)) (Js.of_nat 40))
    = 58%float
  ∧ exact_percentage 23 40 = 58%Z.
Proof.
  split; [apply sample_session_reachable|].
  repeat split; vm_compute; reflexivity.
Qed.

(** C7, amended. [health] reports [api_status] DOWN when the entry of the
    connectivity probe in the diagnostic log has status FAIL (after a run of
    the diagnostics: exactly when the probe of that run failed), otherwise
    DEGRADED when some incident has status ERROR, otherwise HEALTHY.
    [cache_hit_rate] is 0 when [totalRequests] is 0 and otherwise
    [Math.round] of the binary64 value [(cacheHits / totalRequests) * 100]:
    25 for 1 hit out of 4 requests and, up to 100 requests, the exactly
    rounded percentage or, at an exact tie, possibly one less.
    [active_tests_passing] is the same percentage of the PASS entries among
    the entries of the diagnostic log, and 0 when the log is empty. *)
Theorem health_report (now : string) (s : Store) :
  let h := health now s in
  let failed := ∃ t, core_entry (diagnosticLog s) = Some t ∧ TestResult.status t = FAIL in
  let degraded := ∃ i, In i (incidents s) ∧ Incident.status i = ERROR in
  (api_status h = DOWN <-> failed)
  ∧ (api_status h = DEGRADED <-> ¬ failed ∧ degraded)
  ∧ (api_status h = HEALTHY <-> ¬ failed ∧ ¬ degraded)
  ∧ (∀ generateHash d s0,
       api_status (health now (runDiagnostics generateHash d s0)) = DOWN
       <-> probe_ok d = false)
  ∧ cache_hit_rate h
    = (if (totalRequests s =? 0)%nat then 0%float
       else Js.Math_round
              (PrimFloat.mul
                 (PrimFloat.div (Js.of_nat (cacheHits s)) (Js.of_nat (totalRequests s)))
                 100))
  ∧ (totalRequests s = 0 -> cache_hit_rate h = 0%float)
  ∧ (totalRequests s = 4 -> cacheHits s = 1 -> cache_hit_rate h = 25%float)
  ∧ (1 <= totalRequests s <= 100 -> cacheHits s <= totalRequests s ->
     PrimFloat.eqb (cache_hit_rate h)
       (Js.of_Z (exact_percentage (cacheHits s) (totalRequests s))) = true
     ∨ (tie (cacheHits s) (totalRequests s) = true
        ∧ PrimFloat.eqb (cache_hit_rate h)
            (Js.of_Z (exact_percentage (cacheHits s) (totalRequests s) - 1)) = true))
  ∧ active_tests_passing h
    = percentage (count (fun t => TestResult.status t = PASS) (diagnosticLog s))
                 (length (diagnosticLog s))
  ∧ (diagnosticLog s = [] -> active_tests_passing h = 0%float).
Proof.
  cbn zeta. unfold health; cbn [api_status cache_hit_rate active_tests_passing].
  pose proof (core_failed_spec (diagnosticLog s)) as Hcore.
  pose proof (some_error_spec (incidents s)) as Herr.
  repeat match goal with |- _ ∧ _ => split end.
  - destruct (core_failed _); [tauto|].
    split; [by destruct (existsb _ _)|]. intros H. apply Hcore in H. done.
  - destruct (core_failed _).
    + split; [done|]. intros [Hn _]. destruct Hn. by apply Hcore.
    + destruct (existsb _ _).
      * split; [|done]. intros _. split; [|by apply Herr].
        intros H. apply Hcore in H. done.
      * split; [done|]. intros [_ H]. apply Herr in H. done.
  - destruct (core_failed _).
    + split; [done|]. intros [Hn _]. destruct Hn. by apply Hcore.
    + destruct (existsb _ _).
      * split; [done|]. intros [_ Hn]. destruct Hn. by apply Herr.
      * split; [|done]. intros _. split.
        -- intros H. apply Hcore in H. done.
        -- intros H. apply Herr in H. done.
  - intros generateHash d s0. unfold health; cbn [api_status].
    rewrite core_entry_runDiagnostics.
    destruct (probe_ok d); cbn [negb]; [|done].
    split; [|done]. by destruct (existsb _ (incidents (runDiagnostics _ _ _))).
  - reflexivity.
  - intros H. unfold percentage. by rewrite H.
  - intros H4 H1. rewrite H4, H1. vm_compute. reflexivity.
  - intros Hwhole Hpart.
    pose proof (near_exact_100 _ _ Hwhole Hpart) as Hnear.
    unfold near_exact in Hnear.
    apply orb_true_iff in Hnear as [Hexact|[Htie Hbelow]%andb_true_iff].
    + by left.
    + by right.
  - unfold count. by rewrite filter_bool_decide.
  - intros H. by rewrite H.
Qed.

(** ** The classification client *)

Section Client.

Variables (w : World) (rawText : string) (useGrounding : bool).
Hypothesis valid : invalid_input rawText = false.

Let req := classifyRequest rawText useGrounding.

Lemma client_resolved fuel n s r :
  backend w n = Resolved r ->
  processIncidentWithAI_fuel fuel w rawText useGrounding n s
  = (Return (classified w n r), generateContent req s).
Proof.
  intros Hb. destruct fuel; cbn; rewrite valid, Hb; reflexivity.
Qed.

Lemma client_gives_up fuel n s e :
  backend w n = Raised e -> should_retry n e = false ->
  processIncidentWithAI_fuel fuel w rawText useGrounding n s
  = (Return (fallback w n), generateContent req s).
Proof.
  intros Hb Hr. destruct fuel; cbn; rewrite valid, Hb, Hr; reflexivity.
Qed.

Lemma client_retries fuel n s e :
  backend w n = Raised e -> should_retry n e = true ->
  processIncidentWithAI_fuel (S fuel) w rawText useGrounding n s
  = processIncidentWithAI_fuel fuel w rawText useGrounding (S n) (generateContent req s).
Proof.
  intros Hb Hr. cbn. rewrite valid, Hb, Hr. reflexivity.
Qed.

Lemma sent_S m s : sent m req (generateContent req s) = sent (S m) req s.
Proof.
  unfold sent. cbn [Nat.iter]. apply Nat.iter_swap.
Qed.

(** The run from attempt [n] stops at the first attempt [k] that is not
    retried, with the outcome of that attempt and one request per attempt. *)
Lemma client_stops_at fuel n k s i :
  n <= k -> k - n <= fuel ->
  (∀ j, n <= j < k -> failed_retryably w j) ->
  stops_with w k i ->
  processIncidentWithAI_fuel fuel w rawText useGrounding n s
  = (Return i, sent (S (k - n)) req s).
Proof.
  intros Hnk Hfuel Hpre Hstop.
  assert (∀ fuel' s', processIncidentWithAI_fuel fuel' w rawText useGrounding k s'
                      = (Return i, generateContent req s')) as Hk.
  { intros fuel' s'. destruct Hstop as [(r & Hb & ->)|((e & Hb & Hr) & ->)].
    - by apply client_resolved.
    - by apply (client_gives_up _ _ _ e). }
  clear Hstop. revert n s Hnk Hfuel Hpre.
  induction fuel as [|fuel IH]; intros n s Hnk Hfuel Hpre.
  - replace n with k by lia. rewrite Nat.sub_diag. apply Hk.
  - destruct (decide (n = k)) as [->|Hne].
    + rewrite Nat.sub_diag. apply Hk.
    + destruct (Hpre n) as (e & Hb & Hr); [lia|].
      rewrite (client_retries _ _ _ e Hb Hr).
      rewrite IH; [|lia|lia|intros j Hj; apply Hpre; lia].
      rewrite sent_S. do 2 f_equal. lia.
Qed.

(** Retried attempts have an index below 3. *)
Lemma failed_retryably_lt j : failed_retryably w j -> j < 3.
Proof.
  intros (e & _ & Hr). unfold should_retry in Hr.
  apply andb_true_iff in Hr as [Hlt _]. by apply Nat.ltb_lt in Hlt.
Qed.

(** From every attempt index some attempt, at most 3 or the first one, is
    not retried. *)
Lemma client_stop_exists n :
  ∃ k, n <= k ∧ k <= Nat.max n 3
       ∧ (∀ j, n <= j < k -> failed_retryably w j)
       ∧ ((∃ r, backend w k = Resolved r) ∨ failed_for_good w k).
Proof.
  remember (3 - n) as m eqn:Hm. revert n Hm.
  induction m as [|m IH]; intros n Hm.
  - exists n. repeat split; [lia|lia|intros j Hj; lia|].
    destruct (backend w n) as [r|e] eqn:Hb; [left; by exists r|].
    right. exists e. split; [done|]. unfold should_retry.
    replace (n <? 3)%nat with false; [done|]. symmetry. apply Nat.ltb_ge. lia.
  - destruct (backend w n) as [r|e] eqn:Hb.
    { exists n. repeat split; [lia|lia|intros j Hj; lia|]. left. by exists r. }
    destruct (should_retry n e) eqn:Hr.
    + destruct (IH (S n)) as (k & Hle & Hmax & Hpre & Hstop); [lia|].
      exists k. repeat split; [lia|lia| |exact Hstop].
      intros j Hj. destruct (decide (j = n)) as [->|Hne].
      * by exists e.
      * apply Hpre. lia.
    + exists n. repeat split; [lia|lia|intros j Hj; lia|]. right. by exists e.
Qed.

Lemma client_returns n s :
  ∃ k i, n <= k ∧ k <= Nat.max n 3
    ∧ processIncidentWithAI w rawText useGrounding n s
      = (Return i, sent (S (k - n)) req s)
    ∧ (∀ j, n <= j < k -> failed_retryably w j)
    ∧ stops_with w k i.
Proof.
  destruct (client_stop_exists n) as (k & Hle & Hmax & Hpre & Hstop).
  assert (∃ i, stops_with w k i) as [i Hi].
  { destruct Hstop as [(r & Hb)|Hf].
    - exists (classified w k r). left. by exists r.
    - exists (fallback w k). by right. }
  exists k, i. repeat split; [lia|lia| |apply Hpre; lia|done].
  unfold processIncidentWithAI. apply client_stops_at; [lia|lia|done|done].
Qed.

End Client.

Lemma or_string_nonempty (o : option string) (d : string) :
  d ≠ "" -> Js.or_string o d ≠ "".
Proof.
  intros Hd. unfold Js.or_string, Js.truthy_string.
  destruct o as [x|]; [|done].
  destruct (String.eqb_spec x ""); cbn [negb]; done.
Qed.

Lemma clamp_priority_spec (raw : option Z) :
  clamp_priority raw = clamp_1_10 (Js.or_number raw 5).
Proof.
  unfold clamp_priority, clamp_1_10.
  destruct (Z.ltb_spec (Js.or_number raw 5) 1), (Z.ltb_spec 10 (Js.or_number raw 5)); lia.
Qed.

Lemma clamp_priority_bounds (raw : option Z) : (1 <= clamp_priority raw <= 10)%Z.
Proof. unfold clamp_priority. lia. Qed.

Lemma well_formed_classified w n r : well_formed (classified w n r).
Proof.
  unfold well_formed; cbn.
  repeat match goal with |- _ ∧ _ => split end.
  - exists (random_id w n). by left.
  - by apply or_string_nonempty.
  - by apply or_string_nonempty.
  - by apply or_string_nonempty.
  - apply clamp_priority_bounds.
  - apply clamp_priority_bounds.
  - by left.
Qed.

Lemma fallback_is_fallback w n : is_fallback (fallback w n).
Proof.
  unfold is_fallback; cbn.
  repeat match goal with |- _ ∧ _ => split end; try reflexivity.
  by exists (date_now36 w n).
Qed.

Lemma well_formed_fallback w n : well_formed (fallback w n).
Proof.
  unfold well_formed; cbn.
  repeat match goal with |- _ ∧ _ => split end; try done.
  - exists (date_now36 w n). by right.
  - by right.
Qed.

Lemma well_formed_stop w k i : stops_with w k i -> well_formed i.
Proof.
  intros [(r & _ & ->)|(_ & ->)].
  - apply well_formed_classified.
  - apply well_formed_fallback.
Qed.

Lemma should_retry_lt_3 n e :
  n < 3 -> should_retry n e = retryable_status e.
Proof.
  intros Hn. unfold should_retry.
  replace (n <? 3)%nat with true; [done|]. symmetry. by apply Nat.ltb_lt.
Qed.

Lemma should_retry_ge_3 n e : 3 <= n -> should_retry n e = false.
Proof.
  intros Hn. unfold should_retry.
  replace (n <? 3)%nat with false; [done|]. symmetry. by apply Nat.ltb_ge.
Qed.

Lemma retryable_status_spec e :
  retryable_status e = true
  <-> err_status e = Some 429%Z ∨ err_status e = None ∨ err_status e = Some 0%Z.
Proof.
  unfold retryable_status, Js.truthy_opt_number.
  destruct (err_status e) as [c|].
  - rewrite negb_involutive, orb_true_iff, !Z.eqb_eq. split.
    + intros [->| ->]; [by left|by right; right].
    + intros [[= ->]|[[=]|[= ->]]]; [by left|by right].
  - split; [|done]. intros _. right. by left.
Qed.

(** C1 as stated fails on a payload the client does not validate: the
    incident it returns carries the payload's severity, which is none of
    CRITICAL, MAJOR and MINOR, and has no coordinates. *)
Lemma unvalidated_payload :
  ∃ i s',
    processIncidentWithAI (sample_world [Resolved stray_payload])
      "Fire at 5th and Main" true 0 (initialStore true) = (Return i, s')
    ∧ Incident.severity i = "HIGH"
    ∧ Incident.severity i ≠ Severity.CRITICAL
    ∧ Incident.severity i ≠ Severity.MAJOR
    ∧ Incident.severity i ≠ Severity.MINOR
    ∧ Incident.type i = "EARTHQUAKE"
    ∧ Incident.coords i = None.
Proof.
  eexists. eexists. split; [reflexivity|]. cbn. repeat split; done.
Qed.

(** C1, amended. For every text that is non-empty after trimming and at
    least 5 characters long, [processIncidentWithAI] never throws: from every
    attempt index it returns an incident with an id prefixed [INC-] or
    [ERR-], non-empty summary, type and severity, a priority within 1..10
    and status ACTIVE or ERROR.  When the four attempts 0..3 are exhausted,
    or when an attempt fails with a status that allows no retry, the
    incident is the fallback: id prefixed [ERR-], status ERROR, severity
    MAJOR, priority 5, the coordinates (37.7749, -122.4194), the generic
    fault summary, and neither grounding sources nor a processing latency. *)
Theorem client_never_raises (w : World) (rawText : string) (useGrounding : bool)
    (s : Store) :
  invalid_input rawText = false ->
  (∀ n, ∃ i s',
      processIncidentWithAI w rawText useGrounding n s = (Return i, s')
      ∧ well_formed i)
  ∧ (retries_exhausted w ->
     ∃ s', processIncidentWithAI w rawText useGrounding 0 s
           = (Return (fallback w 3), s'))
  ∧ (∀ k, fails_permanently_at w k ->
     ∃ s', processIncidentWithAI w rawText useGrounding 0 s
           = (Return (fallback w k), s'))
  ∧ (∀ k, is_fallback (fallback w k)).
Proof.
  intros valid. repeat match goal with |- _ ∧ _ => split end.
  - intros n.
    destruct (client_returns w rawText useGrounding valid n s)
      as (k & i & _ & _ & Hrun & _ & Hstop).
    exists i. eexists. split; [exact Hrun|]. by apply (well_formed_stop w k).
  - intros Hex. eexists.
    unfold processIncidentWithAI.
    apply (client_stops_at w rawText useGrounding valid 3 0 3); [lia|lia| |].
    + intros j Hj. destruct (Hex j) as (e & Hb & Hr); [lia|].
      exists e. split; [done|]. rewrite should_retry_lt_3; [apply Hr|]; lia.
    + right. split; [|done]. destruct (Hex 3) as (e & Hb & _); [lia|].
      exists e. split; [done|]. by apply should_retry_ge_3.
  - intros k (Hk & Hpre & e & Hb & Hr). eexists.
    unfold processIncidentWithAI.
    apply (client_stops_at w rawText useGrounding valid 3 0 k); [lia|lia| |].
    + intros j Hj. destruct (Hpre j) as (e' & Hb' & Hr'); [lia|].
      exists e'. split; [done|]. rewrite should_retry_lt_3; [done|lia].
    + right. split; [|done]. exists e. split; [done|].
      unfold should_retry. rewrite Hr. apply andb_false_r.
  - apply fallback_is_fallback.
Qed.

Lemma client_never_raises_witness :
  ∃ s', processIncidentWithAI (sample_world []) "Fire at 5th and Main" true 0
          (initialStore true)
        = (Return (fallback (sample_world []) 3), s').
Proof.
  destruct (client_never_raises (sample_world []) "Fire at 5th and Main" true
              (initialStore true) eq_refl) as (_ & Hexhausted & _).
  apply Hexhausted.
  intros j Hj. exists (Error "Failed to fetch"). split.
  - unfold sample_world; cbn. by destruct j as [|[|[|[|j]]]].
  - intros _. reflexivity.
Defined.

(** C3 as stated fails on a raw score of 0, which lies outside 1..10: the
    incident gets 5, while the nearest value within 1..10 is 1. *)
Lemma priority_zero_not_clamped :
  ∃ i s',
    processIncidentWithAI (sample_world [Resolved (sample_payload (Some 0%Z))])
      "Fire at 5th and Main" true 0 (initialStore true) = (Return i, s')
    ∧ Incident.priority_score i = 5%Z
    ∧ clamp_1_10 0 = 1%Z.
Proof.
  eexists. eexists. split; [reflexivity|]. split; reflexivity.
Qed.

(** C3, amended. For every successful classification response, the
    incident's priority lies within 1..10; a raw score other than 0 is
    clamped to the nearest value within 1..10, so that 25 gives 10 and -3
    gives 1. *)
Theorem priority_clamped (w : World) (rawText : string) (useGrounding : bool)
    (n : nat) (s : Store) (r : Response) :
  invalid_input rawText = false ->
  backend w n = Resolved r ->
  ∃ i s',
    processIncidentWithAI w rawText useGrounding n s = (Return i, s')
    ∧ (1 <= Incident.priority_score i <= 10)%Z
    ∧ (∀ x, d_priority_score (data r) = Some x -> x ≠ 0%Z ->
            Incident.priority_score i = clamp_1_10 x)
    ∧ (d_priority_score (data r) = Some 25%Z -> Incident.priority_score i = 10%Z)
    ∧ (d_priority_score (data r) = Some (-3)%Z -> Incident.priority_score i = 1%Z).
Proof.
  intros valid Hb. exists (classified w n r). eexists.
  split; [by apply client_resolved|]. cbn [classified Incident.priority_score].
  repeat match goal with |- _ ∧ _ => split end.
  - apply clamp_priority_bounds.
  - apply clamp_priority_bounds.
  - intros x Hx Hx0. rewrite clamp_priority_spec, Hx. cbn [Js.or_number].
    by destruct (Z.eqb_spec x 0).
  - intros ->. reflexivity.
  - intros ->. reflexivity.
Qed.

Lemma priority_clamped_witness :
  ∃ i s',
    processIncidentWithAI (sample_world [Resolved (sample_payload (Some 25%Z))])
      "Fire at 5th and Main" true 0 (initialStore true) = (Return i, s')
    ∧ Incident.priority_score i = 10%Z.
Proof.
  destruct (priority_clamped
              (sample_world [Resolved (sample_payload (Some 25%Z))])
              "Fire at 5th and Main" true 0 (initialStore true)
              (sample_payload (Some 25%Z)) eq_refl eq_refl)
    as (i & s' & Hrun & _ & _ & H25 & _).
  exists i, s'. split; [exact Hrun|]. by apply H25.
Defined.

(** C10. When the parsed response carries a raw priority of 0, or none, the
    incident's priority is the default 5 and not the floor 1 of the clamp:
    the default replaces the falsy value first and the clamp applies to the
    outcome. *)
Theorem falsy_priority_defaults (w : World) (rawText : string) (useGrounding : bool)
    (n : nat) (s : Store) (r : Response) :
  invalid_input rawText = false ->
  backend w n = Resolved r ->
  ∃ i s',
    processIncidentWithAI w rawText useGrounding n s = (Return i, s')
    ∧ (d_priority_score (data r) = Some 0%Z ∨ d_priority_score (data r) = None ->
       Incident.priority_score i = 5%Z ∧ Incident.priority_score i ≠ clamp_1_10 0)
    ∧ Incident.priority_score i
      = clamp_1_10 (match d_priority_score (data r) with
                    | Some x => if (x =? 0)%Z then 5%Z else x
                    | None => 5%Z
                    end).
Proof.
  intros valid Hb. exists (classified w n r). eexists.
  split; [by apply client_resolved|]. cbn [classified Incident.priority_score].
  split.
  - by intros [-> | ->].
  - apply clamp_priority_spec.
Qed.

Lemma falsy_priority_defaults_witness :
  ∃ i s',
    processIncidentWithAI (sample_world [Resolved (sample_payload None)])
      "Fire at 5th and Main" true 0 (initialStore true) = (Return i, s')
    ∧ Incident.priority_score i = 5%Z.
Proof.
  destruct (falsy_priority_defaults
              (sample_world [Resolved (sample_payload None)])
              "Fire at 5th and Main" true 0 (initialStore true)
              (sample_payload None) eq_refl eq_refl)
    as (i & s' & Hrun & Hfalsy & _).
  exists i, s'. split; [exact Hrun|]. apply Hfalsy. by right.
Defined.

(** C4 as stated fails on an error whose status is 0: the status is
    explicit and is not 429, yet the client retries, sends a second request
    and returns the incident of the second attempt instead of the
    fallback. *)
Lemma retry_on_status_zero :
  err_status (status_error 0) = Some 0%Z
  ∧ should_retry 0 (status_error 0) = true
  ∧ processIncidentWithAI
      (sample_world [Raised (status_error 0); Resolved (sample_payload (Some 7%Z))])
      "Fire at 5th and Main" true 0 (initialStore true)
    = (Return (classified
                 (sample_world [Raised (status_error 0);
                                Resolved (sample_payload (Some 7%Z))])
                 1 (sample_payload (Some 7%Z))),
       sent 2 (classifyRequest "Fire at 5th and Main" true) (initialStore true)).
Proof.
  split; [reflexivity|]. split; reflexivity.
Qed.

(** C4, amended. An attempt that fails is retried exactly when its index is
    below 3 and the error's status is 429, absent or 0.  A call makes at
    least 1 and at most 4 requests, for the attempts 0..3.  An attempt that
    fails with any other status is not retried: the call returns the
    fallback at once, with no further request. *)
Theorem retry_policy (w : World) (rawText : string) (useGrounding : bool) (s : Store) :
  invalid_input rawText = false ->
  (∀ n e, should_retry n e = true
          <-> n < 3 ∧ (err_status e = Some 429%Z ∨ err_status e = None
                       ∨ err_status e = Some 0%Z))
  ∧ (∃ i m, 1 <= m <= 4
            ∧ processIncidentWithAI w rawText useGrounding 0 s
              = (Return i, sent m (classifyRequest rawText useGrounding) s))
  ∧ (∀ k e c,
       (∀ j, j < k -> failed_retryably w j) ->
       backend w k = Raised e -> err_status e = Some c ->
       c ≠ 429%Z -> c ≠ 0%Z ->
       processIncidentWithAI w rawText useGrounding 0 s
       = (Return (fallback w k), sent (S k) (classifyRequest rawText useGrounding) s)).
Proof.
  intros valid. repeat match goal with |- _ ∧ _ => split end.
  - intros n e. unfold should_retry.
    by rewrite andb_true_iff, Nat.ltb_lt, retryable_status_spec.
  - destruct (client_returns w rawText useGrounding valid 0 s)
      as (k & i & _ & Hk & Hrun & _ & _).
    exists i, (S k). split; [cbn in Hk; lia|].
    by rewrite Nat.sub_0_r in Hrun.
  - intros k e c Hpre Hb Hc H429 H0.
    assert (k <= 3) as Hk.
    { destruct (decide (k <= 3)) as [|Hgt]; [done|].
      pose proof (failed_retryably_lt w 3 (Hpre 3 ltac:(lia))). lia. }
    unfold processIncidentWithAI. change (3 - 0) with 3.
    rewrite (client_stops_at w rawText useGrounding valid 3 0 k s (fallback w k));
      [by rewrite Nat.sub_0_r|lia|lia|intros j Hj; apply Hpre; lia|].
    right. split; [|done]. exists e. split; [done|].
    unfold should_retry.
    replace (retryable_status e) with false; [apply andb_false_r|].
    symmetry. apply not_true_is_false. intros Hr.
    apply retryable_status_spec in Hr. rewrite Hc in Hr.
    destruct Hr as [[=]|[[=]|[=]]]; done.
Qed.

Lemma retry_policy_witness :
  processIncidentWithAI
    (sample_world [Raised (Error "Failed to fetch"); Raised (status_error 503)])
    "Fire at 5th and Main" true 0 (initialStore true)
  = (Return (fallback
               (sample_world [Raised (Error "Failed to fetch"); Raised (status_error 503)])
               1),
     sent 2 (classifyRequest "Fire at 5th and Main" true) (initialStore true)).
Proof.
  destruct (retry_policy
              (sample_world [Raised (Error "Failed to fetch"); Raised (status_error 503)])
              "Fire at 5th and Main" true (initialStore true) eq_refl)
    as (_ & _ & Hstop).
  apply (Hstop 1 (status_error 503) 503%Z); try done.
  intros j Hj. exists (Error "Failed to fetch"). split.
  - by destruct j as [|j]; [|lia].
  - by destruct j as [|j]; [|lia].
Defined.

(** ** [addIncident] *)

Lemma sent_closed m r s :
  sent m r s
  = mkStore (incidents s) (isAnalyzing s) (cacheHits s) (totalRequests s)
            (diagnosticLog s) (searchGrounding s) (cache s)
            (requests s ++ replicate m r) (sink s).
Proof.
  unfold sent. induction m as [|m IH].
  - destruct s; cbn. by rewrite app_nil_r.
  - change (Nat.iter (S m) (generateContent r) s)
      with (generateContent r (Nat.iter m (generateContent r) s)).
    rewrite IH. unfold generateContent; cbn. f_equal.
    rewrite <- app_assoc. f_equal.
    change (r :: replicate m r) with (replicate (S m) r).
    by rewrite replicate_S_end.
Qed.

Lemma client_rejects w rawText useGrounding n s :
  invalid_input rawText = true ->
  processIncidentWithAI w rawText useGrounding n s
  = (Throw (Error "Input invalid."), s).
Proof.
  intros H. unfold processIncidentWithAI.
  destruct (3 - n); cbn; by rewrite H.
Qed.

Lemma find_none_filter {A} (f : A -> bool) (l : list A) :
  List.find f l = None -> List.filter (fun x => negb (f x)) l = l.
Proof.
  induction l as [|x l IH]; [done|]. cbn.
  destruct (f x); [done|]. intros H. cbn. by rewrite IH.
Qed.

Lemma moveToFront_eq cached prev :
  moveToFront cached prev = cached :: without (Incident.id cached) prev.
Proof.
  unfold moveToFront, without.
  assert (List.filter (fun i => negb (same_id cached i)) prev
          = filter (fun i => Incident.id i ≠ Incident.id cached) prev) as Hf.
  { apply filter_ext_bool. intros i. unfold same_id.
    by rewrite string_eqb_decide, bool_decide_not. }
  destruct (List.find (same_id cached) prev) eqn:Hfind.
  - by rewrite Hf.
  - by rewrite <- Hf, find_none_filter.
Qed.

Lemma ids_without id l : ¬ In id (ids (without id l)).
Proof.
  unfold ids, without. rewrite in_map_iff. intros (i & Hid & Hin).
  apply list_elem_of_In, list_elem_of_filter in Hin as [Hne _]. done.
Qed.

Lemma NoDup_ids_without id l : NoDup (ids l) -> NoDup (ids (without id l)).
Proof.
  unfold ids, without. induction l as [|i l IH]; [done|].
  cbn [List.map]. rewrite NoDup_cons. intros [Hi Hl].
  rewrite filter_cons. destruct (decide (Incident.id i ≠ id)); [|by apply IH].
  cbn [List.map]. apply NoDup_cons. split; [|by apply IH].
  intros Hin. apply Hi.
  rewrite list_elem_of_In in Hin. rewrite list_elem_of_In.
  apply in_map_iff in Hin as (j & Hj & Hin). apply in_map_iff.
  exists j. split; [done|].
  rewrite <- list_elem_of_In in Hin.
  apply list_elem_of_filter in Hin as [_ Hin]. by apply list_elem_of_In.
Qed.

Lemma without_idemp id l : without id (without id l) = without id l.
Proof.
  unfold without. induction l as [|i l IH]; [done|].
  rewrite filter_cons. destruct (decide (Incident.id i ≠ id)) as [Hne|]; [|done].
  rewrite filter_cons. destruct (decide (Incident.id i ≠ id)); [|done].
  by rewrite IH.
Qed.

Section HookProperties.

Variable generateHash : string -> Settled string.

(** A cache hit: no request, the cache as it was, the hit at the front. *)
Lemma addIncident_hit w rawText s h cached :
  generateHash rawText = Fulfilled h ->
  cache s !! h = Some cached ->
  ∃ s', addIncident generateHash w rawText s = (Return (Some cached), s')
    ∧ incidents s' = cached :: without (Incident.id cached) (incidents s)
    ∧ cacheHits s' = S (cacheHits s)
    ∧ totalRequests s' = S (totalRequests s)
    ∧ cache s' = cache s
    ∧ requests s' = requests s
    ∧ isAnalyzing s' = false.
Proof.
  intros Hh Hc. eexists.
  unfold addIncident, addIncident_try, getCachedIncident.
  rewrite Hh. cbn. rewrite Hc. cbn.
  split; [reflexivity|]. cbn. by rewrite moveToFront_eq.
Qed.

(** A cache miss on a text the client accepts: 1 to 4 requests, the result
    stored under the fingerprint and put at the front. *)
Lemma addIncident_miss w rawText s h :
  invalid_input rawText = false ->
  generateHash rawText = Fulfilled h ->
  cache s !! h = None ->
  ∃ i m s', addIncident generateHash w rawText s = (Return (Some i), s')
    ∧ well_formed i
    ∧ 1 <= m <= 4
    ∧ incidents s' = i :: incidents s
    ∧ cacheHits s' = cacheHits s
    ∧ totalRequests s' = S (totalRequests s)
    ∧ cache s' = <[h := i]> (cache s)
    ∧ requests s' = (requests s ++ replicate m (classifyRequest rawText (searchGrounding s)))%list
    ∧ isAnalyzing s' = false.
Proof.
  intros Hv Hh Hc.
  set (s0 := setIsAnalyzing true (setTotalRequests S s)).
  destruct (client_returns w rawText (searchGrounding s0) Hv 0 s0)
    as (k & i & _ & Hk & Hrun & _ & Hstop).
  exists i, (S k). eexists.
  unfold addIncident, addIncident_try, getCachedIncident.
  fold s0. rewrite Hh.
  replace (cache s0 !! h) with (@None ProcessedIncident) by (symmetry; exact Hc).
  rewrite Hrun, Nat.sub_0_r, sent_closed. cbn.
  split; [reflexivity|]. cbn.
  split; [by apply (well_formed_stop w k)|].
  split; [cbn in Hk; lia|]. done.
Qed.

(** A text the client rejects, or a fingerprint that cannot be computed:
    the result is [null] and nothing but the request counter, the busy flag
    and the error log changes. *)
Lemma addIncident_null w rawText s :
  (∃ e, generateHash rawText = Rejected e)
  ∨ (invalid_input rawText = true
     ∧ ∃ h, generateHash rawText = Fulfilled h ∧ cache s !! h = None) ->
  ∃ s', addIncident generateHash w rawText s = (Return None, s')
    ∧ incidents s' = incidents s
    ∧ cacheHits s' = cacheHits s
    ∧ totalRequests s' = S (totalRequests s)
    ∧ cache s' = cache s
    ∧ requests s' = requests s
    ∧ isAnalyzing s' = false.
Proof.
  intros [(e & He)|(Hinv & h & Hh & Hc)]; eexists;
    unfold addIncident, addIncident_try, getCachedIncident.
  - rewrite He. cbn. done.
  - rewrite Hh. cbn. rewrite Hc. rewrite client_rejects by done. cbn. done.
Qed.

(** Every call settles in one of the three ways above. *)
Lemma addIncident_cases rawText s :
  (∃ h cached, generateHash rawText = Fulfilled h ∧ cache s !! h = Some cached)
  ∨ (invalid_input rawText = false
     ∧ ∃ h, generateHash rawText = Fulfilled h ∧ cache s !! h = None)
  ∨ ((∃ e, generateHash rawText = Rejected e)
     ∨ (invalid_input rawText = true
        ∧ ∃ h, generateHash rawText = Fulfilled h ∧ cache s !! h = None)).
Proof.
  destruct (generateHash rawText) as [h|e] eqn:Hh.
  - destruct (cache s !! h) as [cached|] eqn:Hc.
    + left. by exists h, cached.
    + right. destruct (invalid_input rawText).
      * right. right. split; [done|]. by exists h.
      * left. split; [done|]. by exists h.
  - right. right. left. by exists e.
Qed.

Lemma cache_sound_addIncident w rawText s :
  cache_sound generateHash s ->
  cache_sound generateHash (snd (addIncident generateHash w rawText s)).
Proof.
  intros Hs.
  destruct (addIncident_cases rawText s)
    as [(h & c & Hh & Hc)|[(Hv & h & Hh & Hc)|Hnull]].
  - destruct (addIncident_hit w rawText s h c Hh Hc) as (s' & -> & H).
    cbn [snd]. unfold cache_sound.
    replace (cache s') with (cache s) by (symmetry; apply H). exact Hs.
  - destruct (addIncident_miss w rawText s h Hv Hh Hc) as (i & m & s' & -> & H).
    cbn [snd]. unfold cache_sound.
    replace (cache s') with (<[h := i]> (cache s)) by (symmetry; apply H).
    intros h' i' Hl. destruct (decide (h = h')) as [<-|Hne].
    + by exists rawText.
    + rewrite lookup_insert_ne in Hl by done. by apply (Hs h' i').
  - destruct (addIncident_null w rawText s Hnull) as (s' & -> & H).
    cbn [snd]. unfold cache_sound.
    replace (cache s') with (cache s) by (symmetry; apply H). exact Hs.
Qed.

Lemma reachable_cache_sound s :
  reachable generateHash s -> cache_sound generateHash s.
Proof.
  induction 1 as [g|w t s _ IH|id st s _ IH|g s _ IH|d s _ IH].
  - intros h i Hl. cbn in Hl. by rewrite lookup_empty in Hl.
  - by apply cache_sound_addIncident.
  - exact IH.
  - exact IH.
  - exact IH.
Qed.

End HookProperties.

(** C2. Submitting an accepted text twice makes the second call a cache
    hit: it sends no request, increments [cacheHits], returns the incident
    the first call returned (hence the same id), and leaves that incident
    at the front of the list with every other incident of the same id
    removed, so that a list with unique ids keeps unique ids. *)
Theorem resubmission_hits_cache (generateHash : string -> Settled string)
    (w1 w2 : World) (rawText : string) (s : Store) (h : string) :
  invalid_input rawText = false ->
  generateHash rawText = Fulfilled h ->
  ∃ p s1 s2,
    addIncident generateHash w1 rawText s = (Return (Some p), s1)
    ∧ addIncident generateHash w2 rawText s1 = (Return (Some p), s2)
    ∧ cacheHits s2 = S (cacheHits s1)
    ∧ requests s2 = requests s1
    ∧ cache s2 = cache s1
    ∧ incidents s2 = p :: without (Incident.id p) (incidents s1)
    ∧ ¬ In (Incident.id p) (ids (without (Incident.id p) (incidents s1)))
    ∧ (NoDup (ids (incidents s1)) -> NoDup (ids (incidents s2)))
    ∧ (NoDup (ids (incidents s)) -> NoDup (ids (incidents s2))).
Proof.
  intros Hv Hh.
  assert (∃ p s1, addIncident generateHash w1 rawText s = (Return (Some p), s1)
                  ∧ cache s1 !! h = Some p
                  ∧ without (Incident.id p) (incidents s1)
                    = without (Incident.id p) (incidents s))
    as (p & s1 & Hfirst & Hc1 & Hrest).
  { destruct (cache s !! h) as [c|] eqn:Hc.
    - destruct (addIncident_hit generateHash w1 rawText s h c Hh Hc)
        as (s1 & Hrun & Hinc & _ & _ & Hcache & _).
      exists c, s1. split; [done|]. split; [by rewrite Hcache|].
      rewrite Hinc. unfold without at 1. rewrite filter_cons.
      destruct (decide (Incident.id c ≠ Incident.id c)); [done|].
      apply without_idemp.
    - destruct (addIncident_miss generateHash w1 rawText s h Hv Hh Hc)
        as (i & m & s1 & Hrun & _ & _ & Hinc & _ & _ & Hcache & _).
      exists i, s1. split; [done|]. split.
      + rewrite Hcache. apply lookup_insert_eq.
      + rewrite Hinc. unfold without at 1. rewrite filter_cons.
        by destruct (decide (Incident.id i ≠ Incident.id i)). }
  destruct (addIncident_hit generateHash w2 rawText s1 h p Hh Hc1)
    as (s2 & Hsecond & Hinc & Hhits & _ & Hcache & Hreq & _).
  exists p, s1, s2.
  repeat match goal with |- _ ∧ _ => split end; try done.
  - apply ids_without.
  - intros Hnd. rewrite Hinc. cbn. apply NoDup_cons. split.
    + rewrite list_elem_of_In. apply ids_without.
    + by apply NoDup_ids_without.
  - intros Hnd. rewrite Hinc, Hrest. cbn. apply NoDup_cons. split.
    + rewrite list_elem_of_In. apply ids_without.
    + by apply NoDup_ids_without.
Qed.

Lemma resubmission_hits_cache_witness :
  ∃ p s1 s2,
    addIncident sample_hash (sample_world [Resolved (sample_payload (Some 7%Z))])
      "Fire at 5th and Main" (initialStore true) = (Return (Some p), s1)
    ∧ addIncident sample_hash (sample_world []) "Fire at 5th and Main" s1
      = (Return (Some p), s2)
    ∧ cacheHits s2 = 1
    ∧ requests s2 = requests s1.
Proof.
  destruct (resubmission_hits_cache sample_hash
              (sample_world [Resolved (sample_payload (Some 7%Z))])
              (sample_world []) "Fire at 5th and Main" (initialStore true)
              "Fire at 5th and Main" eq_refl eq_refl)
    as (p & s1 & s2 & H1 & H2 & Hhits & Hreq & _).
  exists p, s1, s2. split; [exact H1|]. split; [exact H2|]. split; [|exact Hreq].
  rewrite Hhits. f_equal.
  change (addIncident sample_hash
            (sample_world [Resolved (sample_payload (Some 7%Z))])
            "Fire at 5th and Main" (initialStore true))
    with (Return (Some (classified
                          (sample_world [Resolved (sample_payload (Some 7%Z))])
                          0 (sample_payload (Some 7%Z)))),
          snd (addIncident sample_hash
                 (sample_world [Resolved (sample_payload (Some 7%Z))])
                 "Fire at 5th and Main" (initialStore true))) in H1.
  by injection H1 as _ <-.
Defined.

(** C5. A text that is empty after trimming, or shorter than 5 characters,
    never reaches the inference backend and never changes the cache,
    whatever the state.  In every state of the hook, with a collision-free
    fingerprint, the call is rejected: it returns [null] and leaves the
    incident list and the hit counter as they were. *)
Theorem invalid_input_rejected (generateHash : string -> Settled string)
    (w : World) (rawText : string) :
  invalid_input rawText = true ->
  (∀ s, requests (snd (addIncident generateHash w rawText s)) = requests s
        ∧ cache (snd (addIncident generateHash w rawText s)) = cache s)
  ∧ (collision_free generateHash ->
     ∀ s, reachable generateHash s ->
          ∃ s', addIncident generateHash w rawText s = (Return None, s')
                ∧ requests s' = requests s
                ∧ cache s' = cache s
                ∧ incidents s' = incidents s
                ∧ cacheHits s' = cacheHits s).
Proof.
  intros Hinv. split.
  - intros s.
    destruct (addIncident_cases generateHash rawText s)
      as [(h & c & Hh & Hc)|[(Hv & _)|Hnull]].
    + destruct (addIncident_hit generateHash w rawText s h c Hh Hc)
        as (s' & -> & _ & _ & _ & Hcache & Hreq & _). done.
    + congruence.
    + destruct (addIncident_null generateHash w rawText s Hnull)
        as (s' & -> & _ & _ & _ & Hcache & Hreq & _). done.
  - intros Hcf s Hreach.
    assert ((∃ e, generateHash rawText = Rejected e)
            ∨ (invalid_input rawText = true
               ∧ ∃ h, generateHash rawText = Fulfilled h ∧ cache s !! h = None))
      as Hnull.
    { destruct (addIncident_cases generateHash rawText s)
        as [(h & c & Hh & Hc)|[(Hv & _)|Hnull]]; [|congruence|done].
      destruct (reachable_cache_sound generateHash s Hreach h c Hc) as (t & Hv & Ht).
      rewrite (Hcf rawText t h Hh Ht) in Hinv. congruence. }
    destruct (addIncident_null generateHash w rawText s Hnull)
      as (s' & Hrun & Hinc & Hhits & _ & Hcache & Hreq & _).
    by exists s'.
Qed.

Lemma sample_hash_collision_free : collision_free sample_hash.
Proof. intros t1 t2 h [= <-] [= <-]. reflexivity. Qed.

Lemma invalid_input_rejected_witness :
  ∃ s', addIncident sample_hash (sample_world []) "hi" (initialStore true)
        = (Return None, s')
        ∧ requests s' = []
        ∧ cache s' = ∅.
Proof.
  destruct (invalid_input_rejected sample_hash (sample_world []) "hi" eq_refl)
    as [_ Hrej].
  destruct (Hrej sample_hash_collision_free (initialStore true) (reach_init _ true))
    as (s' & Hrun & Hreq & Hcache & _).
  by exists s'.
Defined.

(** C9. [addIncident] never throws: every call, whatever the text, returns
    an incident or [null], and increments [totalRequests] exactly once.
    Whatever the [try] block throws is turned into [null]; so is, on a cache
    miss, the validation error of the client. *)
Theorem addIncident_never_throws (generateHash : string -> Settled string)
    (w : World) (rawText : string) (s : Store) :
  ∃ r s',
    addIncident generateHash w rawText s = (Return r, s')
    ∧ totalRequests s' = S (totalRequests s)
    ∧ (∀ e s1,
         addIncident_try generateHash w rawText
           (setIsAnalyzing true (setTotalRequests S s)) = (Throw e, s1) ->
         r = None)
    ∧ (invalid_input rawText = true ->
       ∀ h, generateHash rawText = Fulfilled h -> cache s !! h = None ->
            r = None
            ∧ addIncident_try generateHash w rawText
                (setIsAnalyzing true (setTotalRequests S s))
              = (Throw (Error "Input invalid."),
                 setIsAnalyzing true (setTotalRequests S s))).
Proof.
  assert (∃ r s', addIncident generateHash w rawText s = (Return r, s')
                  ∧ totalRequests s' = S (totalRequests s)) as (r & s' & Hrun & Htotal).
  { destruct (addIncident_cases generateHash rawText s)
      as [(h & c & Hh & Hc)|[(Hv & h & Hh & Hc)|Hnull]].
    - destruct (addIncident_hit generateHash w rawText s h c Hh Hc)
        as (s' & Hrun & _ & _ & Htotal & _). by exists (Some c), s'.
    - destruct (addIncident_miss generateHash w rawText s h Hv Hh Hc)
        as (i & m & s' & Hrun & _ & _ & _ & _ & Htotal & _). by exists (Some i), s'.
    - destruct (addIncident_null generateHash w rawText s Hnull)
        as (s' & Hrun & _ & _ & Htotal & _). by exists None, s'. }
  exists r, s'. split; [done|]. split; [done|].
  assert (∀ e s1,
            addIncident_try generateHash w rawText
              (setIsAnalyzing true (setTotalRequests S s)) = (Throw e, s1) ->
            r = None) as Hcaught.
  { intros e s1 Htry. unfold addIncident in Hrun. rewrite Htry in Hrun.
    by injection Hrun as <- _. }
  split; [exact Hcaught|].
  intros Hinv h Hh Hc.
  assert (addIncident_try generateHash w rawText
            (setIsAnalyzing true (setTotalRequests S s))
          = (Throw (Error "Input invalid."),
             setIsAnalyzing true (setTotalRequests S s))) as Htry.
  { unfold addIncident_try, getCachedIncident. rewrite Hh. cbn [cache setIsAnalyzing setTotalRequests].
    rewrite Hc. by rewrite client_rejects. }
  split; [|exact Htry]. by apply (Hcaught _ _ Htry).
Qed.

(** ** The diagnostics battery *)

Section SuiteProperties.

Variable clock : nat -> float.

Lemma runTest_record name fn results tick :
  TestRunner.runTest clock name fn (results, tick)
  = ((results ++ [record_of clock tick (name, fn)])%list, S (S tick)).
Proof. unfold TestRunner.runTest, record_of. by destruct fn. Qed.

Lemma runChecks_records checks results tick :
  TestRunner.runChecks clock checks (results, tick)
  = ((results ++ imap (fun k c => record_of clock (tick + 2 * k) c) checks)%list,
     tick + 2 * length checks).
Proof.
  revert results tick. induction checks as [|[name fn] checks IH]; intros results tick.
  - cbn. rewrite app_nil_r. do 2 f_equal. lia.
  - unfold TestRunner.runChecks in *. cbn [fold_left fst snd].
    rewrite runTest_record, IH. cbn [imap length]. rewrite <- app_assoc.
    cbn [app]. f_equal; [|lia]. do 2 f_equal.
    + f_equal; f_equal; lia.
    + apply imap_ext. intros k c _. cbn. f_equal. lia.
Qed.

Lemma suitePass_spec (rs : list TestResultDetails.t) :
  suitePass rs = true <-> ∀ r, In r rs -> TestResultDetails.status r = PASS.
Proof.
  unfold suitePass. rewrite forallb_forall.
  split; intros H r Hr.
  - eapply bool_decide_eq_true_1, H, Hr.
  - apply bool_decide_eq_true_2, H, Hr.
Qed.

(** C8. The battery is fault isolated.  A run of [runTest] over any list of
    checks files one record per check, in order: a check that throws gets
    FAIL with the message of the thrown error, a check that passes gets PASS,
    and the record's duration is the difference of the two clock readings
    taken around that check alone.  [runSuite] is such a run over the four
    published checks, hence always files four records; when the fingerprint
    check throws, its record is FAIL with that message and the check after it
    still passes; likewise when the fingerprint has not 64 characters.  The
    suite passes exactly when every record is PASS. *)
Theorem suite_fault_isolated (generateHash : string -> Settled string) (now : string) :
  (∀ checks k name fn,
      checks !! k = Some (name, fn) ->
      ∃ r, fst (TestRunner.runChecks clock checks ([], 0)) !! k = Some r
           ∧ TestResultDetails.name r = name
           ∧ TestResultDetails.duration r
             = PrimFloat.sub (clock (S (2 * k))) (clock (2 * k))
           ∧ match fn with
             | Rejected e => TestResultDetails.status r = FAIL
                             ∧ TestResultDetails.message r = Some (message e)
             | Fulfilled _ => TestResultDetails.status r = PASS
                              ∧ TestResultDetails.message r = None
             end)
  ∧ (∀ checks, length (fst (TestRunner.runChecks clock checks ([], 0))) = length checks)
  ∧ TestRunner.runSuite generateHash clock now
    = fst (TestRunner.runChecks clock (TestRunner.battery generateHash now) ([], 0))
  ∧ List.map TestResultDetails.name (TestRunner.runSuite generateHash clock now)
    = [ "Model Data Integrity"; "Geospatial Bounds Logic";
        "Cache Storage Quota Check"; "State Immutability" ]
  ∧ (∀ e, generateHash "test_payload" = Rejected e ->
          TestRunner.runSuite generateHash clock now !! 2
          = Some (TestResultDetails.mk "Cache Storage Quota Check" FAIL
                    (PrimFloat.sub (clock 5) (clock 4)) (Some (message e)))
          ∧ TestRunner.runSuite generateHash clock now !! 3
            = Some (TestResultDetails.mk "State Immutability" PASS
                      (PrimFloat.sub (clock 7) (clock 6)) None))
  ∧ (∀ digest, generateHash "test_payload" = Fulfilled digest ->
          String.length digest ≠ 64 ->
          TestRunner.runSuite generateHash clock now !! 2
          = Some (TestResultDetails.mk "Cache Storage Quota Check" FAIL
                    (PrimFloat.sub (clock 5) (clock 4)) (Some "SHA-256 Hash failure"))
          ∧ TestRunner.runSuite generateHash clock now !! 3
            = Some (TestResultDetails.mk "State Immutability" PASS
                      (PrimFloat.sub (clock 7) (clock 6)) None))
  ∧ (suitePass (TestRunner.runSuite generateHash clock now) = true
     <-> ∀ r, In r (TestRunner.runSuite generateHash clock now) ->
              TestResultDetails.status r = PASS).
Proof.
  assert (TestRunner.runSuite generateHash clock now
          = fst (TestRunner.runChecks clock (TestRunner.battery generateHash now) ([], 0)))
    as Hsuite by reflexivity.
  repeat match goal with |- _ ∧ _ => split end.
  - intros checks k name fn Hk.
    rewrite runChecks_records. cbn [fst app].
    rewrite list_lookup_imap, Hk. cbn [fmap option_fmap option_map].
    eexists. split; [reflexivity|]. cbn. by destruct fn.
  - intros checks. rewrite runChecks_records. cbn [fst app]. apply length_imap.
  - exact Hsuite.
  - rewrite Hsuite, runChecks_records. reflexivity.
  - intros e He. rewrite Hsuite, runChecks_records. cbn [fst app].
    rewrite !list_lookup_imap. cbn. unfold record_of, TestRunner.check_hash.
    cbn. by rewrite He.
  - intros digest Hd Hlen. rewrite Hsuite, runChecks_records. cbn [fst app].
    rewrite !list_lookup_imap. cbn. unfold record_of, TestRunner.check_hash.
    cbn. rewrite Hd.
    replace (String.length digest =? 64)%nat with false; [done|].
    symmetry. by apply Nat.eqb_neq.
  - apply suitePass_spec.
Qed.

End SuiteProperties.

Lemma suite_fault_isolated_witness :
  ∃ r, fst (TestRunner.runChecks (fun n => Js.of_nat n)
              [("first", Rejected (Error "boom")); ("second", Fulfilled tt)]
              ([], 0)) !! 1 = Some r
       ∧ TestResultDetails.name r = "second"
       ∧ TestResultDetails.status r = PASS.
Proof.
  destruct (suite_fault_isolated (fun n => Js.of_nat n) sample_hash "now")
    as (Hchecks & _).
  destruct (Hchecks [("first", Rejected (Error "boom")); ("second", Fulfilled tt)]
              1 "second" (Fulfilled tt) eq_refl)
    as (r & Hr & Hname & _ & Hstatus & _).
  by exists r.
Defined.

(** * Further properties of the code *)

(** ** The validation of the client *)

Lemma chars_rev_app (s1 s2 : string) :
  chars (String.rev_app s1 s2) = (List.rev (chars s1) ++ chars s2)%list.
Proof.
  revert s2. induction s1 as [|a s1 IH]; intros s2; [done|].
  cbn [String.rev_app]. rewrite IH. cbn. by rewrite <- app_assoc.
Qed.

Lemma chars_rev (s : string) : chars (String.rev s) = List.rev (chars s).
Proof. unfold String.rev. rewrite chars_rev_app. cbn. by rewrite app_nil_r. Qed.

Lemma chars_nil (s : string) : chars s = [] <-> s = "".
Proof. destruct s; cbn; split; congruence. Qed.

Lemma trimStart_nil (s : string) :
  Js.trimStart s = "" <-> ∀ c, In c (chars s) -> Js.is_white_space c = true.
Proof.
  induction s as [|a s IH]; cbn [Js.trimStart].
  - split; [intros _ c []|done].
  - destruct (Js.is_white_space a) eqn:Ha.
    + rewrite IH. cbn. split.
      * intros H c [<-|Hc]; [done|by apply H].
      * intros H c Hc. apply H. by right.
    + split; [done|]. intros H. specialize (H a (or_introl eq_refl)). congruence.
Qed.

(** What [trimStart] keeps begins with a character that is not white. *)
Lemma trimStart_head (s : string) a r :
  Js.trimStart s = String a r -> Js.is_white_space a = false.
Proof.
  induction s as [|b s IH]; cbn [Js.trimStart]; [done|].
  destruct (Js.is_white_space b) eqn:Hb; [exact IH|].
  by intros [= <- _].
Qed.

Lemma trim_nil (s : string) :
  Js.trim s = "" <-> ∀ c, In c (chars s) -> Js.is_white_space c = true.
Proof.
  rewrite <- trimStart_nil. unfold Js.trim, Js.trimEnd.
  destruct (Js.trimStart s) as [|a r] eqn:Hs; [done|].
  split; [|done]. intros Hrev.
  apply (proj2 (chars_nil _)) in Hrev. rewrite chars_rev in Hrev.
  apply (f_equal (@List.rev ascii)) in Hrev. rewrite rev_involutive in Hrev.
  cbn [List.rev] in Hrev.
  apply (proj1 (chars_nil _)) in Hrev.
  pose proof (proj1 (trimStart_nil _) Hrev) as Hall.
  pose proof (trimStart_head s a r Hs) as Ha.
  rewrite (Hall a) in Ha; [done|].
  rewrite chars_rev, <- in_rev. by left.
Qed.

Lemma all_or_some {A} (f : A -> bool) (l : list A) :
  (∀ c, In c l -> f c = true) ∨ (∃ c, In c l ∧ f c = false).
Proof.
  induction l as [|a l [IH|(c & Hc & Hf)]].
  - left. intros c [].
  - destruct (f a) eqn:Ha.
    + left. intros c [<-|Hc]; [done|by apply IH].
    + right. exists a. split; [by left|done].
  - right. exists c. split; [by right|done].
Qed.

(** X1. The client accepts a text exactly when it has at least 5 code
    units, white space included, and at least one of them is not white
    space. *)
Theorem accepted_texts (rawText : string) :
  invalid_input rawText = false
  <-> 5 <= String.length rawText
      ∧ ∃ c, In c (chars rawText) ∧ Js.is_white_space c = false.
Proof.
  unfold invalid_input, Js.truthy_string.
  rewrite orb_false_iff, negb_false_iff, negb_true_iff, Nat.ltb_ge.
  assert (String.eqb (Js.trim rawText) "" = false
          <-> ∃ c, In c (chars rawText) ∧ Js.is_white_space c = false) as ->; [|tauto].
  rewrite <- not_true_iff_false, String.eqb_eq, trim_nil. split.
  - intros Hn. by destruct (all_or_some Js.is_white_space (chars rawText)).
  - intros (c & Hc & Hw) Hall. rewrite (Hall c Hc) in Hw. done.
Qed.

(** ** Grounding sources and the answering attempt *)

(** X2. The client keeps one grounding source per chunk that has a [web]
    entry, in the order of the chunks and with the chunk's uri; no source
    has an empty title, a missing or empty one being replaced by
    ["Source"]; without chunks there is no source. *)
Theorem grounding_sources_kept (chunks : list GroundingChunk) :
  List.map uri (groundingSources (Some chunks))
  = omap (fun chunk => web_uri <$> web chunk) chunks
  ∧ length (groundingSources (Some chunks)) <= length chunks
  ∧ Forall (fun src => title src ≠ "") (groundingSources (Some chunks))
  ∧ (∀ k chunk w t, chunks !! k = Some chunk -> web chunk = Some w ->
                    web_title w = Some t -> t ≠ "" ->
                    In {| title := t; uri := web_uri w |} (groundingSources (Some chunks)))
  ∧ groundingSources None = [].
Proof.
  cbn [groundingSources].
  repeat match goal with |- _ ∧ _ => split end; [| | | |done].
  - induction chunks as [|[[w|]] chunks IH]; cbn; [done| |done]. by rewrite IH.
  - induction chunks as [|[[w|]] chunks IH]; cbn in *; lia.
  - induction chunks as [|[[w|]] chunks IH]; cbn; [done| |done].
    constructor; [|done]. cbn. by apply or_string_nonempty.
  - intros k chunk w t Hk Hw Ht Hne. apply in_flat_map. exists chunk. split.
    + apply list_elem_of_In. by eapply list_elem_of_lookup_2.
    + rewrite Hw. left. f_equal. unfold Js.or_string, Js.truthy_string. rewrite Ht.
      by destruct (String.eqb_spec t "").
Qed.

(** X3. When attempt [k] is the first one to get an answer, after [k]
    retried failures, the client returns the incident built from that answer,
    having sent [k + 1] requests with the same text and tool flag; [k] is at
    most 3, and the incident's [processing_latency] is measured from the
    start of attempt [k] alone: the earlier attempts are not in it. *)
Theorem answer_after_retries (w : World) (rawText : string) (useGrounding : bool)
    (k : nat) (r : Response) (s : Store) :
  invalid_input rawText = false ->
  (∀ j, j < k -> failed_retryably w j) ->
  backend w k = Resolved r ->
  k <= 3
  ∧ processIncidentWithAI w rawText useGrounding 0 s
    = (Return (classified w k r), sent (S k) (classifyRequest rawText useGrounding) s)
  ∧ requests (sent (S k) (classifyRequest rawText useGrounding) s)
    = (requests s ++ replicate (S k) (classifyRequest rawText useGrounding))%list
  ∧ Incident.processing_latency (classified w k r)
    = Some (Js.Math_round (PrimFloat.sub (perf_end w k) (perf_start w k))).
Proof.
  intros valid Hpre Hb.
  assert (k <= 3) as Hk.
  { destruct (decide (k <= 3)) as [|Hgt]; [done|].
    pose proof (failed_retryably_lt w 3 (Hpre 3 ltac:(lia))). lia. }
  split; [done|]. split; [|split; [by rewrite sent_closed|done]].
  unfold processIncidentWithAI. change (3 - 0) with 3.
  rewrite (client_stops_at w rawText useGrounding valid 3 0 k s (classified w k r));
    [by rewrite Nat.sub_0_r|lia|lia|intros j Hj; apply Hpre; lia|].
  left. by exists r.
Qed.

Lemma answer_after_retries_witness :
  processIncidentWithAI
    (sample_world [Raised (status_error 429); Resolved (sample_payload (Some 7%Z))])
    "Fire at 5th and Main" false 0 (initialStore false)
  = (Return (classified
               (sample_world [Raised (status_error 429);
                              Resolved (sample_payload (Some 7%Z))])
               1 (sample_payload (Some 7%Z))),
     sent 2 (classifyRequest "Fire at 5th and Main" false) (initialStore false)).
Proof.
  destruct (answer_after_retries
              (sample_world [Raised (status_error 429);
                             Resolved (sample_payload (Some 7%Z))])
              "Fire at 5th and Main" false 1 (sample_payload (Some 7%Z))
              (initialStore false) eq_refl) as (_ & Hrun & _); [|done|exact Hrun].
  intros j Hj. exists (status_error 429). by destruct j as [|j]; [|lia].
Defined.

(** ** [updateStatus] *)

Lemma updateStatus_incidents id st s :
  incidents (updateStatus id st s)
  = List.map (fun i => if decide (Incident.id i = id)
                       then Incident.with_status st i else i) (incidents s).
Proof.
  unfold updateStatus, notify, setIncidents; cbn.
  apply map_ext. intros i. rewrite string_eqb_decide.
  case_bool_decide; case_decide; done.
Qed.

Lemma without_map_status id st l :
  without id (List.map (fun i => if decide (Incident.id i = id)
                                 then Incident.with_status st i else i) l)
  = without id l.
Proof.
  unfold without. induction l as [|i l IH]; [done|].
  cbn [List.map]. rewrite !filter_cons.
  destruct (decide (Incident.id i = id)) as [Hi|Hi]; cbn.
  - destruct (decide (Incident.id i ≠ id)); [done|].
    destruct (decide (Incident.id (Incident.with_status st i) ≠ id)); [|done].
    cbn in *. done.
  - destruct (decide (Incident.id i ≠ id)); [|done]. by rewrite IH.
Qed.


(** X4. [updateStatus] keeps the incidents in place and changes nothing but
    the status of those that carry the id: the ids, in order, are the same,
    every other incident is untouched, and so are the cache, the counters and
    the requests.  With an id no incident carries the list is unchanged, and
    repeating the update changes nothing more. *)
Theorem updateStatus_in_place (id : string) (st : IncidentStatus) (s : Store) :
  ids (incidents (updateStatus id st s)) = ids (incidents s)
  ∧ (∀ k i, incidents s !! k = Some i ->
            incidents (updateStatus id st s) !! k
            = Some (if decide (Incident.id i = id) then Incident.with_status st i else i))
  ∧ (∀ i, In i (incidents (updateStatus id st s)) -> Incident.id i = id ->
          Incident.status i = st)
  ∧ (¬ In id (ids (incidents s)) -> incidents (updateStatus id st s) = incidents s)
  ∧ incidents (updateStatus id st (updateStatus id st s))
    = incidents (updateStatus id st s)
  ∧ cache (updateStatus id st s) = cache s
  ∧ cacheHits (updateStatus id st s) = cacheHits s
  ∧ totalRequests (updateStatus id st s) = totalRequests s
  ∧ requests (updateStatus id st s) = requests s.
Proof.
  rewrite !updateStatus_incidents.
  repeat match goal with |- _ ∧ _ => split end; try done.
  - unfold ids. rewrite map_map. apply map_ext. intros i.
    by destruct (decide (Incident.id i = id)).
  - intros k i Hk.
    change (List.map ?f ?l) with (f <$> l). by rewrite list_lookup_fmap, Hk.
  - intros i Hin Hid. apply in_map_iff in Hin as (j & <- & _).
    destruct (decide (Incident.id j = id)) as [|Hne]; [done|].
    destruct Hne. by destruct (decide (Incident.id j = id)).
  - intros Hno. rewrite <- (map_id (incidents s)) at 2.
    apply map_ext_in. intros i Hi.
    destruct (decide (Incident.id i = id)) as [<-|]; [|done].
    destruct Hno. unfold ids. apply in_map_iff. by exists i.
  - rewrite map_map. apply map_ext. intros i.
    destruct (decide (Incident.id i = id)) as [Hi|Hi].
    + destruct (decide (Incident.id (Incident.with_status st i) = id)) as [|Hn];
        [reflexivity|]. by destruct Hn.
    + by destruct (decide (Incident.id i = id)).
Qed.

(** X5. Marking an id as SOLVED moves the incidents that carry the id and
    were not solved from [total] to [solved]; no incident is lost. *)
Theorem solving_moves_counts (id : string) (s : Store) :
  let moved := count (fun i => Incident.id i = id ∧ Incident.status i ≠ SOLVED)
                     (incidents s) in
  solved (stats (incidents (updateStatus id SOLVED s)))
  = solved (stats (incidents s)) + moved
  ∧ total (stats (incidents (updateStatus id SOLVED s))) + moved
    = total (stats (incidents s))
  ∧ total (stats (incidents (updateStatus id SOLVED s)))
    + solved (stats (incidents (updateStatus id SOLVED s)))
    = length (incidents s).
Proof.
  cbn zeta. rewrite updateStatus_incidents.
  assert (∀ l,
    solved (stats (List.map (fun i => if decide (Incident.id i = id)
                                      then Incident.with_status SOLVED i else i) l))
    = solved (stats l)
      + count (fun i => Incident.id i = id ∧ Incident.status i ≠ SOLVED) l) as Hsolved.
  { intros l. unfold stats, count; cbn [solved]. rewrite !filter_bool_decide.
    induction l as [|i l IH]; [done|].
    cbn [List.map]. rewrite !filter_cons.
    destruct (decide (Incident.id i = id)) as [Hi|Hi].
    - rewrite decide_True by done. cbn [length]. rewrite IH.
      destruct (decide (Incident.status i = SOLVED)) as [Hs|Hs].
      + rewrite decide_False by tauto. cbn [length]. lia.
      + rewrite decide_True by tauto. cbn [length]. lia.
    - rewrite (decide_False (P := _ ∧ _)) by tauto.
      destruct (decide (Incident.status i = SOLVED)); cbn [length]; rewrite IH; lia. }
  pose proof (stats_partition (incidents s)) as Hp.
  pose proof (stats_partition
                (List.map (fun i => if decide (Incident.id i = id)
                                    then Incident.with_status SOLVED i else i)
                          (incidents s))) as Hp'.
  rewrite length_map in Hp'. specialize (Hsolved (incidents s)).
  repeat split; lia.
Qed.

(** X6. An update of the status does not reach the cache: when the text of
    a cached incident is submitted again after the status of that incident
    was updated, the call returns the cached incident and the list holds that
    id once, with the cached incident; the updated status is gone. *)
Theorem resubmission_undoes_update (generateHash : string -> Settled string)
    (w : World) (rawText : string) (s : Store) (h : string)
    (cached : ProcessedIncident) (st : IncidentStatus) :
  generateHash rawText = Fulfilled h ->
  cache s !! h = Some cached ->
  ∃ s',
    addIncident generateHash w rawText (updateStatus (Incident.id cached) st s)
    = (Return (Some cached), s')
    ∧ incidents s' = cached :: without (Incident.id cached) (incidents s)
    ∧ (∀ i, In i (incidents s') -> Incident.id i = Incident.id cached -> i = cached).
Proof.
  intros Hh Hc.
  destruct (addIncident_hit generateHash w rawText
              (updateStatus (Incident.id cached) st s) h cached Hh)
    as (s' & Hrun & Hinc & _); [done|].
  rewrite updateStatus_incidents, without_map_status in Hinc.
  exists s'. split; [done|]. split; [done|].
  intros i Hin Hid. rewrite Hinc in Hin. destruct Hin as [<-|Hin]; [done|].
  destruct (ids_without (Incident.id cached) (incidents s)).
  unfold ids. apply in_map_iff. by exists i.
Qed.

Lemma resubmission_undoes_update_witness :
  ∃ s',
    addIncident sample_hash (sample_world []) sample_text
      (updateStatus "INC-K3J9QZ" SOLVED (submit_sample (initialStore true)))
    = (Return (Some (classified (sample_world [Resolved (sample_payload (Some 7%Z))])
                       0 (sample_payload (Some 7%Z)))), s')
    ∧ List.map Incident.status (incidents s') = [ACTIVE].
Proof.
  destruct (resubmission_undoes_update sample_hash (sample_world []) sample_text
              (submit_sample (initialStore true)) sample_text
              (classified (sample_world [Resolved (sample_payload (Some 7%Z))])
                 0 (sample_payload (Some 7%Z)))
              SOLVED eq_refl eq_refl) as (s' & Hrun & Hinc & _).
  exists s'. split; [exact Hrun|]. by rewrite Hinc.
Defined.

(** ** The cache over sequences of operations *)

Section CacheProperties.

Variable generateHash : string -> Settled string.


(** What a call that returns an incident leaves behind. *)
Lemma addIncident_some w rawText s i s' :
  addIncident generateHash w rawText s = (Return (Some i), s') ->
  ∃ h, generateHash rawText = Fulfilled h
       ∧ cache s' !! h = Some i
       ∧ incidents s' = i :: without (Incident.id i) (incidents s)
         ∨ generateHash rawText = Fulfilled h
           ∧ cache s !! h = None
           ∧ cache s' !! h = Some i
           ∧ incidents s' = i :: incidents s.
Proof.
  intros Hrun.
  destruct (addIncident_cases generateHash rawText s)
    as [(h & c & Hh & Hc)|[(Hv & h & Hh & Hc)|Hnull]].
  - destruct (addIncident_hit generateHash w rawText s h c Hh Hc)
      as (s1 & Hrun1 & Hinc & _ & _ & Hcache & _).
    rewrite Hrun in Hrun1. injection Hrun1 as -> ->.
    exists h. left. by rewrite Hcache.
  - destruct (addIncident_miss generateHash w rawText s h Hv Hh Hc)
      as (j & m & s1 & Hrun1 & _ & _ & Hinc & _ & _ & Hcache & _).
    rewrite Hrun in Hrun1. injection Hrun1 as -> ->.
    exists h. right. rewrite Hcache, lookup_insert_eq. done.
  - destruct (addIncident_null generateHash w rawText s Hnull) as (s1 & Hrun1 & _).
    rewrite Hrun in Hrun1. done.
Qed.






End CacheProperties.




(** ** Invariants of the hook *)

Section HookInvariants.

Variable generateHash : string -> Settled string.


Lemma addIncident_head (w : World) (rawText : string) (s s' : Store)
    (i : ProcessedIncident) :
  addIncident generateHash w rawText s = (Return (Some i), s') ->
  head (incidents s') = Some i
  ∧ length (incidents s') <= S (length (incidents s))
  ∧ ∃ h, generateHash rawText = Fulfilled h ∧ cache s' !! h = Some i.
Proof.
  intros Hrun.
  destruct (addIncident_some generateHash w rawText s i s' Hrun)
    as (h & [(Hh & Hc & Hinc)|(Hh & _ & Hc & Hinc)]); rewrite Hinc; cbn.
  - split; [done|]. split; [|by exists h].
    unfold without. pose proof (length_filter
      (fun j => Incident.id j ≠ Incident.id i) (incidents s)). lia.
  - split; [done|]. split; [lia|by exists h].
Qed.

(** X11. A call that returns an incident leaves it at the head of the
    list, which grows by at most one, and in the cache under the text's
    fingerprint; a call that returns [null] leaves the list, the cache, the
    hit counter and the requests as they were. *)
Theorem submission_outcome (w : World) (rawText : string) (s : Store) :
  (∀ i s', addIncident generateHash w rawText s = (Return (Some i), s') ->
           head (incidents s') = Some i
           ∧ length (incidents s') <= S (length (incidents s))
           ∧ ∃ h, generateHash rawText = Fulfilled h ∧ cache s' !! h = Some i)
  ∧ (∀ s', addIncident generateHash w rawText s = (Return None, s') ->
           incidents s' = incidents s
           ∧ cache s' = cache s
           ∧ cacheHits s' = cacheHits s
           ∧ requests s' = requests s).
Proof.
  split.
  - intros i s'. apply addIncident_head.
  - intros s' Hrun.
    destruct (addIncident_cases generateHash rawText s)
      as [(h & c & Hh & Hc)|[(Hv & h & Hh & Hc)|Hnull]].
    + destruct (addIncident_hit generateHash w rawText s h c Hh Hc) as (s1 & Hrun1 & _).
      rewrite Hrun in Hrun1. done.
    + destruct (addIncident_miss generateHash w rawText s h Hv Hh Hc)
        as (i & m & s1 & Hrun1 & _).
      rewrite Hrun in Hrun1. done.
    + destruct (addIncident_null generateHash w rawText s Hnull)
        as (s1 & Hrun1 & Hinc & Hhits & _ & Hcache & Hreq & _).
      rewrite Hrun in Hrun1. injection Hrun1 as ->. done.
Qed.

(** X12. A submission that returns an incident of status ERROR, fresh or
    from the cache, takes the health report out of HEALTHY: [api_status] is
    DEGRADED, or DOWN when the connectivity probe had failed. *)
Theorem failed_submission_degrades (w : World) (rawText now : string) (s s' : Store)
    (i : ProcessedIncident) :
  addIncident generateHash w rawText s = (Return (Some i), s') ->
  Incident.status i = ERROR ->
  api_status (health now s')
  = (if core_failed (diagnosticLog s') then DOWN else DEGRADED).
Proof.
  intros Hrun Hst.
  destruct (addIncident_head w rawText s s' i Hrun) as (Hhead & _).
  unfold health; cbn [api_status].
  destruct (core_failed (diagnosticLog s')); [done|].
  destruct (incidents s') as [|j l]; [done|]. injection Hhead as ->.
  cbn [existsb]. by rewrite bool_decide_eq_true_2.
Qed.

End HookInvariants.


Lemma failed_submission_degrades_witness :
  api_status (health "12:00:00"
                (snd (addIncident sample_hash (sample_world []) sample_text
                        (initialStore true))))
  = DEGRADED.
Proof.
  exact (failed_submission_degrades sample_hash (sample_world []) sample_text
           "12:00:00" (initialStore true)
           (snd (addIncident sample_hash (sample_world []) sample_text
                   (initialStore true)))
           (fallback (sample_world []) 3) eq_refl eq_refl).
Defined.

(** ** A run of the diagnostics *)

Section DiagnosticsProperties.

Variable generateHash : string -> Settled string.

Lemma runSuite_records clock now :
  TestRunner.runSuite generateHash clock now
  = [ record_of clock 0 ("Model Data Integrity", TestRunner.check_data_integrity now);
      record_of clock 2 ("Geospatial Bounds Logic", TestRunner.check_geospatial);
      record_of clock 4 ("Cache Storage Quota Check", TestRunner.check_hash generateHash);
      record_of clock 6 ("State Immutability", TestRunner.check_immutability) ].
Proof.
  change (TestRunner.runSuite generateHash clock now)
    with (fst (TestRunner.runChecks clock (TestRunner.battery generateHash now) ([], 0))).
  by rewrite runChecks_records.
Qed.

Lemma check_data_integrity_spec now :
  TestRunner.check_data_integrity now
  = if decide (now = "") then Rejected (Error "Missing required fields")
    else Fulfilled tt.
Proof.
  unfold TestRunner.check_data_integrity, Js.truthy_string; cbn.
  destruct (String.eqb_spec now ""); by case_decide.
Qed.

Lemma check_hash_spec :
  (digest_ok generateHash ∧ TestRunner.check_hash generateHash = Fulfilled tt)
  ∨ (¬ digest_ok generateHash ∧ ∃ e, TestRunner.check_hash generateHash = Rejected e).
Proof.
  unfold digest_ok, TestRunner.check_hash.
  destruct (generateHash "test_payload") as [digest|e].
  - destruct (Nat.eqb_spec (String.length digest) 64) as [Hl|Hl]; cbn.
    + left. split; [by exists digest|done].
    + right. split; [|by eexists]. by intros (d' & [= <-] & Hd).
  - right. split; [|by eexists]. by intros (d' & [=] & _).
Qed.

Lemma suite_statuses clock now :
  List.map TestResultDetails.status (TestRunner.runSuite generateHash clock now)
  = [ if decide (now = "") then FAIL else PASS; PASS;
      if decide (digest_ok generateHash) then PASS else FAIL; PASS ].
Proof.
  rewrite runSuite_records. unfold record_of. cbn [List.map TestResultDetails.status snd].
  rewrite check_data_integrity_spec.
  destruct check_hash_spec as [[Hok ->]|[Hno [e ->]]].
  - rewrite (decide_True (P := digest_ok generateHash)) by done.
    by destruct (decide (now = "")).
  - rewrite (decide_False (P := digest_ok generateHash)) by done.
    by destruct (decide (now = "")).
Qed.

Lemma suiteEntries_statuses (rs : list TestResultDetails.t) :
  List.map TestResult.status (suiteEntries rs) = List.map TestResultDetails.status rs.
Proof.
  apply list_eq. intros k. unfold suiteEntries.
  change (List.map TestResult.status) with (fmap (M := list) TestResult.status).
  change (List.map TestResultDetails.status)
    with (fmap (M := list) TestResultDetails.status).
  rewrite !list_lookup_fmap, list_lookup_imap. by destruct (rs !! k).
Qed.

Lemma suitePass_statuses (rs : list TestResultDetails.t) :
  suitePass rs
  = forallb (fun st => bool_decide (st = PASS)) (List.map TestResultDetails.status rs).
Proof. unfold suitePass. induction rs as [|r rs IH]; cbn; congruence. Qed.

Lemma passing_statuses (log : list TestResult.t) :
  length (List.filter (fun t => bool_decide (TestResult.status t = PASS)) log)
  = length (List.filter (fun st => bool_decide (st = PASS))
                        (List.map TestResult.status log)).
Proof.
  induction log as [|t log IH]; [done|]. cbn.
  destruct (bool_decide (TestResult.status t = PASS)); cbn; congruence.
Qed.

Lemma runDiagnostics_log d s :
  diagnosticLog (runDiagnostics generateHash d s)
  = TestResult.mk "core" "Core GenAI API" (if probe_ok d then PASS else FAIL)
      (Js.Math_round (PrimFloat.sub (api_end d) (api_start d)))
    :: TestResult.mk "cloud" "GCP Service Mock" PASS 50
    :: suiteEntries (TestRunner.runSuite generateHash (suite_clock d) (suite_now d)).
Proof. reflexivity. Qed.

(** X13. A run of the diagnostics replaces the log, whatever it held, by
    six entries with distinct ids, [core], [cloud] and [suite_0] to
    [suite_3]; the [core] entry is PASS or FAIL as the probe went, the
    [cloud] entry is always PASS, and no entry is left PENDING.  The run adds
    the one request of the probe and touches neither the incidents, the cache
    nor the counters. *)
Theorem diagnostics_replace_log (d : DiagWorld) (s : Store) :
  let s' := runDiagnostics generateHash d s in
  log_ids (diagnosticLog s')
  = [ "core"; "cloud"; "suite_0"; "suite_1"; "suite_2"; "suite_3" ]
  ∧ NoDup (log_ids (diagnosticLog s'))
  ∧ diagnosticLog s' = diagnosticLog (runDiagnostics generateHash d (initialStore true))
  ∧ (∃ core cloud, diagnosticLog s' !! 0 = Some core
                   ∧ TestResult.status core = (if probe_ok d then PASS else FAIL)
                   ∧ diagnosticLog s' !! 1 = Some cloud
                   ∧ TestResult.status cloud = PASS)
  ∧ (∀ t, In t (diagnosticLog s') -> TestResult.status t ≠ PENDING)
  ∧ requests s'
    = (requests s ++ [ {| model := "gemini-3-flash-preview"; contents := "ping";
                          googleSearch := false |} ])%list
  ∧ incidents s' = incidents s
  ∧ cache s' = cache s
  ∧ cacheHits s' = cacheHits s
  ∧ totalRequests s' = totalRequests s.
Proof.
  cbn zeta.
  assert (log_ids (diagnosticLog (runDiagnostics generateHash d s))
          = [ "core"; "cloud"; "suite_0"; "suite_1"; "suite_2"; "suite_3" ]) as Hids.
  { unfold runDiagnostics, notify, setDiagnosticLog, generateContent; cbn.
    by rewrite runSuite_records. }
  repeat match goal with |- _ ∧ _ => split end; try done.
  - rewrite Hids. apply (bool_decide_unpack _). by vm_compute.
  - eexists _, _. split; [reflexivity|]. split; [reflexivity|]. by split.
  - intros t Hin Hpending.
    assert (In PENDING (List.map TestResult.status
                          (diagnosticLog (runDiagnostics generateHash d s)))) as Hst.
    { apply in_map_iff. by exists t. }
    rewrite runDiagnostics_log in Hst. cbn [List.map TestResult.status] in Hst.
    rewrite suiteEntries_statuses, suite_statuses in Hst.
    destruct (probe_ok d), (decide (suite_now d = "")),
      (decide (digest_ok generateHash)); cbn in Hst; decompose [or] Hst; done.
Qed.

(** X14. The suite passes exactly when the clock gives a non-empty
    timestamp and the fingerprint of the test payload settles with 64
    characters: the three other checks cannot fail.  The success flag a run
    of the diagnostics reports to the sink is this verdict, whatever the
    connectivity probe found. *)
Theorem suite_verdict (clock : nat -> float) (now : string) :
  (suitePass (TestRunner.runSuite generateHash clock now) = true
   <-> now ≠ "" ∧ digest_ok generateHash)
  ∧ (∀ d s,
       last (sink (runDiagnostics generateHash d s))
       = Some (LogEvent "DIAGNOSTICS_COMPLETED"
                 [("success",
                   if decide (suite_now d ≠ "" ∧ digest_ok generateHash)
                   then "true" else "false")])).
Proof.
  assert (∀ clock' now',
            suitePass (TestRunner.runSuite generateHash clock' now') = true
            <-> now' ≠ "" ∧ digest_ok generateHash) as Hverdict.
  { intros clock' now'. rewrite suitePass_statuses, suite_statuses. cbn [forallb].
    destruct (decide (now' = "")), (decide (digest_ok generateHash)); cbn;
      split; try done; tauto. }
  split; [apply Hverdict|].
  intros d s. unfold runDiagnostics at 1. unfold notify at 1. cbn [sink].
  rewrite last_snoc. do 4 f_equal.
  destruct (suitePass _) eqn:Hp.
  - apply (proj1 (Hverdict _ _)) in Hp. by rewrite decide_True.
  - rewrite decide_False; [done|]. intros Hok.
    apply (proj2 (Hverdict (suite_clock d) _)) in Hok. congruence.
Qed.

(** X15. After a run of the diagnostics with a non-empty timestamp,
    [active_tests_passing] is 100 when the probe and the fingerprint check
    both pass, 83 when one of them fails and 67 when both fail: four of the
    six entries always pass. *)
Theorem tests_passing_after_run (d : DiagWorld) (s : Store) (now : string) :
  suite_now d ≠ "" ->
  active_tests_passing (health now (runDiagnostics generateHash d s))
  = (if probe_ok d
     then if decide (digest_ok generateHash) then 100 else 83
     else if decide (digest_ok generateHash) then 83 else 67)%float.
Proof.
  intros Hnow. unfold health; cbn [active_tests_passing].
  rewrite passing_statuses, runDiagnostics_log. cbn [List.map length].
  rewrite suiteEntries_statuses, suite_statuses.
  unfold suiteEntries. rewrite length_imap.
  replace (length (TestRunner.runSuite generateHash (suite_clock d) (suite_now d)))
    with 4 by (by rewrite runSuite_records).
  rewrite decide_False by done.
  destruct (probe_ok d), (decide (digest_ok generateHash)); vm_compute; reflexivity.
Qed.

End DiagnosticsProperties.

Lemma tests_passing_after_run_witness :
  active_tests_passing
    (health "12:00:00"
       (runDiagnostics sample_digest
          {| probe_ok := false; api_start := 0; api_end := 120;
             suite_clock := fun n => Js.of_nat n;
             suite_now := "2025-01-01T00:00:00.000Z" |}
          (initialStore true)))
  = 83%float.
Proof.
  exact (tests_passing_after_run sample_digest
           {| probe_ok := false; api_start := 0; api_end := 120;
              suite_clock := fun n => Js.of_nat n;
              suite_now := "2025-01-01T00:00:00.000Z" |}
           (initialStore true) "12:00:00"
           ltac:(discriminate)).
Defined.

(** ** The sign-in of the cloud facade *)

(** X16. After [signIn] the facade is authenticated and the stored token
    is the uid of the current user; after [signOut] it is not authenticated
    and has no current user.  Both leave every other key of the storage
    alone, and signing in and out again restores a storage that held no
    token.  Whether the facade is authenticated depends on the stored token
    alone, not on the current user. *)
Theorem sign_in_round_trip (rand : string) (a : GoogleCloud.Auth) :
  let a1 := snd (GoogleCloud.signIn rand a) in
  GoogleCloud.isAuthenticated a1 = true
  ∧ GoogleCloud.currentUser a1 = Some (fst (GoogleCloud.signIn rand a))
  ∧ GoogleCloud.localStorage a1 !! GoogleCloud.token_key
    = Some (GoogleCloud.uid (fst (GoogleCloud.signIn rand a)))
  ∧ GoogleCloud.isAuthenticated (GoogleCloud.signOut a1) = false
  ∧ GoogleCloud.currentUser (GoogleCloud.signOut a1) = None
  ∧ (∀ k, k ≠ GoogleCloud.token_key ->
          GoogleCloud.localStorage a1 !! k = GoogleCloud.localStorage a !! k
          ∧ GoogleCloud.localStorage (GoogleCloud.signOut a1) !! k
            = GoogleCloud.localStorage a !! k)
  ∧ (GoogleCloud.localStorage a !! GoogleCloud.token_key = None ->
     GoogleCloud.localStorage (GoogleCloud.signOut a1) = GoogleCloud.localStorage a)
  ∧ (∀ user,
       GoogleCloud.isAuthenticated
         {| GoogleCloud.currentUser := user;
            GoogleCloud.localStorage := GoogleCloud.localStorage a |}
       = GoogleCloud.isAuthenticated a).
Proof.
  cbn zeta. unfold GoogleCloud.signIn, GoogleCloud.signOut, GoogleCloud.isAuthenticated.
  cbn [fst snd GoogleCloud.localStorage GoogleCloud.currentUser GoogleCloud.uid].
  repeat match goal with |- _ ∧ _ => split end; try done.
  - by rewrite lookup_insert_eq.
  - by rewrite lookup_insert_eq.
  - by rewrite lookup_delete_eq.
  - intros k Hk. rewrite lookup_delete_ne, lookup_insert_ne by done. done.
  - intros Hnone. rewrite delete_insert_eq. by apply delete_id.
Qed.

(** ** The markers of the map *)

Section MarkerProperties.

Variable focused : option ProcessedIncident.

Lemma place_some inc c st :
  Incident.coords inc = Some c ->
  ∃ m, IncidentMap.place focused inc st
       = (None, {| IncidentMap.markers := <[Incident.id inc := m]> (IncidentMap.markers st);
                   IncidentMap.raised := IncidentMap.raised (snd (IncidentMap.place focused inc st)) |})
       ∧ IncidentMap.latlng m = (lat c, lng c)
       ∧ IncidentMap.style m = IncidentMap.markerOptions focused inc.
Proof.
  intros Hc. unfold IncidentMap.place. rewrite Hc.
  destruct (IncidentMap.markers st !! Incident.id inc) as [old|]; eexists; by cbn.
Qed.


(** Placing incidents with coordinates: no error, and each id of the list
    gets the marker of the last incident that carries it. *)
Lemma placeAll_some l st :
  Forall (fun inc => is_Some (Incident.coords inc)) l ->
  ∃ st', IncidentMap.placeAll focused l st = (None, st')
    ∧ (∀ id, ¬ In id (ids l) ->
             IncidentMap.markers st' !! id = IncidentMap.markers st !! id)
    ∧ (∀ id, In id (ids l) -> is_Some (IncidentMap.markers st' !! id))
    ∧ (∀ k inc, l !! k = Some inc ->
                (∀ k' inc', k < k' -> l !! k' = Some inc' ->
                            Incident.id inc' ≠ Incident.id inc) ->
                ∃ m c, IncidentMap.markers st' !! Incident.id inc = Some m
                       ∧ Incident.coords inc = Some c
                       ∧ IncidentMap.latlng m = (lat c, lng c)
                       ∧ IncidentMap.style m = IncidentMap.markerOptions focused inc).
Proof.
  intros Hall. revert st. induction Hall as [|inc l [c Hc] _ IH]; intros st.
  - exists st. split; [done|]. split; [done|]. split; [intros id []|].
    intros k inc Hk. by rewrite lookup_nil in Hk.
  - destruct (place_some inc c st Hc) as (m & Hplace & Hpos & Hstyle).
    cbn [IncidentMap.placeAll]. rewrite Hplace.
    destruct (IH {| IncidentMap.markers := <[Incident.id inc := m]> (IncidentMap.markers st);
                    IncidentMap.raised :=
                      IncidentMap.raised (snd (IncidentMap.place focused inc st)) |})
      as (st' & Hrun & Hframe & Hdom & Hlast).
    exists st'. split; [exact Hrun|]. cbn [IncidentMap.markers] in Hframe.
    split; [|split].
    + intros id Hid. cbn in Hid. rewrite Hframe by tauto.
      rewrite lookup_insert_ne; [done|]. intros Heq. apply Hid. by left.
    + intros id [<-|Hid]; [|by apply Hdom].
      destruct (in_dec string_dec (Incident.id inc) (ids l)) as [Hin|Hin]; [by apply Hdom|].
      rewrite Hframe by done. rewrite lookup_insert_eq. by eexists.
    + intros [|k] inc0 Hk Hlater.
      * injection Hk as <-. exists m, c.
        rewrite Hframe; [by rewrite lookup_insert_eq|].
        intros Hin. unfold ids in Hin. apply in_map_iff in Hin as (inc' & Hid & Hin).
        apply list_elem_of_In, list_elem_of_lookup in Hin as [k' Hk'].
        apply (Hlater (S k') inc'); [lia|done|done].
      * apply (Hlast k inc0 Hk). intros k' inc' Hlt Hk'.
        apply (Hlater (S k') inc'); [lia|done].
Qed.

(** X17. When the map is ready and every incident has coordinates, the
    effect ends without an error and the markers mirror the incidents: there
    is a marker for an id exactly when some incident carries it, and the
    marker of an id stands at the coordinates, and has the style, of the
    last incident that carries it. *)
Theorem markers_mirror_incidents (incidents : list ProcessedIncident)
    (st : IncidentMap.Layers) :
  Forall (fun inc => is_Some (Incident.coords inc)) incidents ->
  ∃ st', IncidentMap.updateMarkers true incidents focused st = (None, st')
    ∧ (∀ id, is_Some (IncidentMap.markers st' !! id) <-> In id (ids incidents))
    ∧ (∀ k inc, incidents !! k = Some inc ->
                (∀ k' inc', k < k' -> incidents !! k' = Some inc' ->
                            Incident.id inc' ≠ Incident.id inc) ->
                ∃ m c, IncidentMap.markers st' !! Incident.id inc = Some m
                       ∧ Incident.coords inc = Some c
                       ∧ IncidentMap.latlng m = (lat c, lng c)
                       ∧ IncidentMap.style m = IncidentMap.markerOptions focused inc).
Proof.
  intros Hall. unfold IncidentMap.updateMarkers. cbn [negb].
  destruct (placeAll_some incidents
              {| IncidentMap.markers :=
                   filter (fun kv => kv.1 ∈ (list_to_set (List.map Incident.id incidents)
                                             : gset string))
                          (IncidentMap.markers st);
                 IncidentMap.raised := IncidentMap.raised st |} Hall)
    as (st' & Hrun & Hframe & Hdom & Hlast).
  exists st'. split; [exact Hrun|]. split; [|exact Hlast].
  intros id. split; [|apply Hdom].
  intros Hsome. destruct (in_dec string_dec id (ids incidents)) as [|Hno]; [done|].
  rewrite Hframe in Hsome by done. cbn [IncidentMap.markers] in Hsome.
  destruct Hsome as [m Hm]. apply map_lookup_filter_Some in Hm as [_ Hin].
  cbn in Hin. apply elem_of_list_to_set, list_elem_of_In in Hin. done.
Qed.



End MarkerProperties.

Lemma markers_mirror_incidents_witness :
  ∃ st',
    IncidentMap.updateMarkers true (incidents (submit_sample (initialStore true))) None
      {| IncidentMap.markers := ∅; IncidentMap.raised := [] |} = (None, st')
    ∧ is_Some (IncidentMap.markers st' !! "INC-K3J9QZ").
Proof.
  destruct (markers_mirror_incidents None (incidents (submit_sample (initialStore true)))
              {| IncidentMap.markers := ∅; IncidentMap.raised := [] |})
    as (st' & Hrun & Hdom & _).
  - repeat constructor. by eexists.
  - exists st'. split; [exact Hrun|]. apply Hdom. by left.
Defined.


(** ** Unique ids and consistent counters *)



(** X20. The counters of the dashboard are consistent: every incident is
    counted once, in [total] or in [solved]; [critical] and [dispatched] are
    parts of [total]; and an incident that is solved is in neither, whatever
    its severity. *)
Theorem stats_consistent (l : list ProcessedIncident) :
  total (stats l) + solved (stats l) = length l
  ∧ critical (stats l) <= total (stats l)
  ∧ dispatched (stats l) <= total (stats l)
  ∧ (∀ i, Incident.status i = SOLVED ->
          total (stats (i :: l)) = total (stats l)
          ∧ critical (stats (i :: l)) = critical (stats l)
          ∧ dispatched (stats (i :: l)) = dispatched (stats l)
          ∧ solved (stats (i :: l)) = S (solved (stats l))).
Proof.
  split; [apply stats_partition|].
  unfold stats; cbn [total critical dispatched solved].
  split; [apply List.filter_length_le|]. split; [apply List.filter_length_le|].
  intros i Hi.
  assert (not_solved i = false) as Hn
    by (unfold not_solved; by rewrite bool_decide_eq_true_2).
  cbn [List.filter]. by rewrite Hn, (bool_decide_eq_true_2 _ Hi).
Qed.
